(** * A shallow embedding of tap_salesforce/sync.py

    Python values are modelled by [pyval]; exceptions by [exc]; the
    Singer state (the bookmark store) by a gmap from stream id to the
    gmap of bookmark fields. Stateful drivers run in a small
    state/error/log monad [M] (section [Drivers]). *)

From Stdlib Require Import String Ascii ZArith List Sorted.
From stdpp Require Import base gmap strings list.
Import ListNotations.
Set Warnings "-register-all".
Open Scope Z_scope.

(** ** Python values *)

(** A Python float is kept as the exact decimal value of the literal it was
    parsed from ([FDec m e] is m * 10^e); the rounding to binary64 plays no
    role in the properties below. *)
Inductive pyfloat :=
| FDec (m e : Z)
| FInf (neg : bool)
| FNaN.

Inductive pyval :=
| VNone
| VBool (b : bool)
| VInt (z : Z)
| VFloat (f : pyfloat)
| VStr (s : string)
| VList (l : list pyval)
| VDict (d : list (string * pyval))   (** an insertion-ordered dict *)
| VTime (t : Z).                      (** a datetime object (an instant) *)

(** Exception classes that the embedded code can raise or catch. *)
Inductive exc_kind :=
| KTapSalesforce (cls : string)  (** TapSalesforceException or a subclass *)
| KKeyError
| KTypeError
| KValueError
| KAttributeError
| KException (cls : string)      (** any other subclass of Exception *)
| KBaseOnly (cls : string).      (** BaseException outside Exception,
                                     e.g. KeyboardInterrupt, SystemExit *)

(** An exception object: class, message, [__cause__], [__context__]. *)
Inductive exc :=
| Exc (kind : exc_kind) (msg : string) (cause context : option exc).

Definition exc_kind_of (e : exc) : exc_kind := let 'Exc k _ _ _ := e in k.
Definition exc_msg (e : exc) : string := let 'Exc _ m _ _ := e in m.
Definition exc_cause (e : exc) : option exc := let 'Exc _ _ c _ := e in c.
Definition exc_context (e : exc) : option exc := let 'Exc _ _ _ c := e in c.

Definition raise_ {A} (k : exc_kind) (msg : string) : exc + A :=
  inl (Exc k msg None None).

Notation "'let?' x ':=' m 'in' k" :=
  (match m with inl e => inl e | inr x => k end)
  (at level 200, x name, m at level 100, k at level 200).

(** [v == "lit"] for a string literal. *)
Definition py_eq_str (v : pyval) (lit : string) : bool :=
  match v with VStr s => String.eqb s lit | _ => false end.

(** [v in ["a", "b", ...]] for a list of string literals. *)
Definition py_in_str_list (v : pyval) (lits : list string) : bool :=
  existsb (py_eq_str v) lits.

Definition is_none (v : pyval) : bool :=
  match v with VNone => true | _ => false end.

Fixpoint dict_lookup (d : list (string * pyval)) (k : string) : option pyval :=
  match d with
  | [] => None
  | (k', v) :: d' => if String.eqb k' k then Some v else dict_lookup d' k
  end.

(** [d[k]] *)
Definition py_getitem (d : pyval) (k : string) : exc + pyval :=
  match d with
  | VDict items =>
      match dict_lookup items k with
      | Some v => inr v
      | None => raise_ KKeyError k
      end
  | _ => raise_ KTypeError "object is not subscriptable by a str"
  end.

(** [d.get(k)] *)
Definition py_dict_get (d : pyval) (k : string) : exc + pyval :=
  match d with
  | VDict items =>
      match dict_lookup items k with Some v => inr v | None => inr VNone end
  | _ => raise_ KAttributeError "object has no attribute 'get'"
  end.

(** [needle in s] on strings: substring test. *)
Fixpoint str_contains (needle hay : string) : bool :=
  String.prefix needle hay ||
  match hay with
  | EmptyString => false
  | String _ hay' => str_contains needle hay'
  end.

(** [lit in container] for a string [lit]. *)
Definition py_contains (lit : string) (container : pyval) : exc + bool :=
  match container with
  | VStr s => inr (str_contains lit s)
  | VList l => inr (existsb (fun x => py_eq_str x lit) l)
  | VDict d => inr (existsb (fun kv => String.eqb kv.1 lit) d)
  | _ => raise_ KTypeError "argument of type is not iterable"
  end.

(** ** The built-in conversions [int(.)] and [float(.)] on text

    ASCII rendering of CPython's grammar: surrounding whitespace, an
    optional sign, decimal digits with single underscores between digits;
    for [float] also a fraction, an exponent and inf/infinity/nan in any
    case. *)

Definition is_digit (c : ascii) : bool :=
  let n := nat_of_ascii c in (48 <=? n)%nat && (n <=? 57)%nat.
Definition digit_val (c : ascii) : Z := Z.of_nat (nat_of_ascii c) - 48.
Definition is_space (c : ascii) : bool :=
  let n := nat_of_ascii c in
  ((9 <=? n)%nat && (n <=? 13)%nat) || ((28 <=? n)%nat && (n <=? 32)%nat).
Definition lower (c : ascii) : ascii :=
  let n := nat_of_ascii c in
  if (65 <=? n)%nat && (n <=? 90)%nat then ascii_of_nat (n + 32) else c.

Fixpoint drop_spaces (l : list ascii) : list ascii :=
  match l with
  | c :: l' => if is_space c then drop_spaces l' else l
  | [] => []
  end.
Definition strip (l : list ascii) : list ascii :=
  rev (drop_spaces (rev (drop_spaces l))).

(** Digits after the first one: value so far, digit count, rest. *)
Fixpoint digits_aux (acc : Z) (n : nat) (l : list ascii) : Z * nat * list ascii :=
  match l with
  | c :: l' =>
      if is_digit c then digits_aux (acc * 10 + digit_val c) (S n) l'
      else if Ascii.eqb c "_" then
        match l' with
        | d :: l'' =>
            if is_digit d then digits_aux (acc * 10 + digit_val d) (S n) l''
            else (acc, n, l)
        | [] => (acc, n, l)
        end
      else (acc, n, l)
  | [] => (acc, n, l)
  end.

(** digitpart ::= digit (["_"] digit)* *)
Definition digitpart (l : list ascii) : option (Z * nat * list ascii) :=
  match l with
  | c :: l' => if is_digit c then Some (digits_aux (digit_val c) 1 l') else None
  | [] => None
  end.

Definition sign (l : list ascii) : Z * list ascii :=
  match l with
  | c :: l' =>
      if Ascii.eqb c "-" then (-1, l')
      else if Ascii.eqb c "+" then (1, l') else (1, l)
  | [] => (1, l)
  end.

Definition parse_int_text (s : string) : option Z :=
  let '(sg, l) := sign (strip (list_ascii_of_string s)) in
  match digitpart l with
  | Some (v, _, []) => Some (sg * v)
  | _ => None
  end.

Definition parse_exponent (l : list ascii) : option Z :=
  match l with
  | [] => Some 0
  | c :: l' =>
      if Ascii.eqb c "e" || Ascii.eqb c "E" then
        let '(sg, l'') := sign l' in
        match digitpart l'' with
        | Some (v, _, []) => Some (sg * v)
        | _ => None
        end
      else None
  end.

(** [digitpart ["." [digitpart]] | "." digitpart], then the exponent. *)
Definition parse_decimal (l : list ascii) : option (Z * Z) :=
  match digitpart l with
  | Some (ip, _, rest) =>
      match rest with
      | c :: rest' =>
          if Ascii.eqb c "." then
            match digitpart rest' with
            | Some (fp, nf, rest'') =>
                match parse_exponent rest'' with
                | Some ex => Some (ip * 10 ^ Z.of_nat nf + fp, ex - Z.of_nat nf)
                | None => None
                end
            | None => option_map (fun ex => (ip, ex)) (parse_exponent rest')
            end
          else option_map (fun ex => (ip, ex)) (parse_exponent rest)
      | [] => Some (ip, 0)
      end
  | None =>
      match l with
      | c :: l' =>
          if Ascii.eqb c "." then
            match digitpart l' with
            | Some (fp, nf, rest'') =>
                option_map (fun ex => (fp, ex - Z.of_nat nf)) (parse_exponent rest'')
            | None => None
            end
          else None
      | [] => None
      end
  end.

Definition parse_float_text (s : string) : option pyfloat :=
  let '(sg, l) := sign (strip (list_ascii_of_string s)) in
  let low := map lower l in
  if bool_decide (low = list_ascii_of_string "inf")
     || bool_decide (low = list_ascii_of_string "infinity")
  then Some (FInf (Z.eqb sg (-1)))
  else if bool_decide (low = list_ascii_of_string "nan") then Some FNaN
  else option_map (fun me => FDec (sg * me.1) me.2) (parse_decimal l).

(** [int(v)] *)
Definition py_int (v : pyval) : exc + pyval :=
  match v with
  | VInt z => inr (VInt z)
  | VBool b => inr (VInt (if b then 1 else 0))
  | VFloat (FDec m e) =>
      inr (VInt (if 0 <=? e then m * 10 ^ e else Z.quot m (10 ^ (- e))))
  | VFloat _ => raise_ KValueError "cannot convert float to integer"
  | VStr s =>
      match parse_int_text s with
      | Some z => inr (VInt z)
      | None => raise_ KValueError "invalid literal for int() with base 10"
      end
  | _ => raise_ KTypeError "int() argument must be a string or a number"
  end.

(** [float(v)] *)
Definition py_float (v : pyval) : exc + pyval :=
  match v with
  | VInt z => inr (VFloat (FDec z 0))
  | VBool b => inr (VFloat (FDec (if b then 1 else 0) 0))
  | VFloat f => inr (VFloat f)
  | VStr s =>
      match parse_float_text s with
      | Some f => inr (VFloat f)
      | None => raise_ KValueError "could not convert string to float"
      end
  | _ => raise_ KTypeError "float() argument must be a string or a number"
  end.

(** ** Record post-processing (sync.py, lines 11-28 and 163-185) *)

Definition BLACKLISTED_FIELDS : list string := ["attributes"].

(** [remove_blacklisted_fields(data)] *)
Definition remove_blacklisted_fields (data : list (string * pyval))
  : list (string * pyval) :=
  filter (fun kv => negb (existsb (String.eqb kv.1) BLACKLISTED_FIELDS)) data.

(** [transform_bulk_data_hook(data, typ, schema)] *)
Definition transform_bulk_data_hook (data : pyval) (typ : string) (schema : pyval)
  : exc + pyval :=
  let result := data in
  let result :=
    match data with
    | VDict d => VDict (remove_blacklisted_fields d)
    | _ => result
    end in
  if py_eq_str data "" then
    let? t := py_getitem schema "type" in
    let? has_null := py_contains "null" t in
    inr (if has_null then VNone else result)
  else inr result.

(** [try_cast(val, coercion)]: every exception is swallowed. *)
Definition try_cast (val : pyval) (coercion : pyval -> exc + pyval) : pyval :=
  match coercion val with
  | inr r => r
  | inl _ => val
  end.

(** The body of the [if] in [fix_record_anytype], for a value [v]. *)
Definition fix_anytype_value (v : pyval) : pyval :=
  let val := v in
  let val := try_cast v py_int in
  let val := try_cast v py_float in
  let val := if py_in_str_list v ["true"; "false"] then VBool (py_eq_str v "true")
             else val in
  let val := if py_eq_str v "" then VNone else val in
  val.

(** [schema['properties'][k].get("type") is None] *)
Definition field_untyped (schema : pyval) (k : string) : exc + bool :=
  let? props := py_getitem schema "properties" in
  let? fs := py_getitem props k in
  let? t := py_dict_get fs "type" in
  inr (is_none t).

(** The loop [for k, v in rec.items(): ... rec[k] = val]. A dict has unique
    keys, so [rec[k] = val] overwrites exactly the entry being visited,
    in place; the loop is a map over the entries, stopping at the first
    exception. *)
Fixpoint fix_items (schema : pyval) (items : list (string * pyval))
  : exc + list (string * pyval) :=
  match items with
  | [] => inr []
  | (k, v) :: rest =>
      let? untyped := field_untyped schema k in
      let val := if untyped then fix_anytype_value v else v in
      let? rest' := fix_items schema rest in
      inr ((k, val) :: rest')
  end.

(** [fix_record_anytype(rec, schema)] *)
Definition fix_record_anytype (rec schema : pyval) : exc + pyval :=
  match rec with
  | VDict items =>
      let? items' := fix_items schema items in
      inr (VDict items')
  | _ => raise_ KAttributeError "object has no attribute 'items'"
  end.


(** ** The bookmark store and the effects of a sync pass *)

(** [state['bookmarks']]: stream id -> bookmark field -> value. *)
Abbreviation bookmarks := (gmap string (gmap string pyval)).

(** [singer.get_bookmark(state, tap_stream_id, key)] (default None). *)
Definition get_bookmark (st : bookmarks) (sid key : string) : pyval :=
  default VNone (st !! sid ≫= (.!! key)).

(** [singer.write_bookmark(state, tap_stream_id, key, val)] *)
Definition write_bookmark_map (st : bookmarks) (sid key : string) (v : pyval)
  : bookmarks :=
  <[sid := <[key := v]> (default ∅ (st !! sid))]> st.

(** Python truthiness. *)
Definition truthy (v : pyval) : bool :=
  match v with
  | VNone => false
  | VBool b => b
  | VInt z => negb (Z.eqb z 0)
  | VFloat (FDec m _) => negb (Z.eqb m 0)
  | VFloat _ => true
  | VStr s => negb (String.eqb s "")
  | VList l => negb (Nat.eqb (length l) 0)
  | VDict d => negb (Nat.eqb (length d) 0)
  | VTime _ => true
  end.

(** What a pass does that is observable: emitted messages, flushes of the
    state ([singer.write_state]), and, as trace annotations, the in-memory
    bookmark writes and batch-id removals that precede a flush. *)
Inductive event :=
| EvRecord (stream : string) (record version : pyval) (time_extracted : Z)
| EvActivateVersion (stream : string) (version : pyval)
| EvWriteBookmark (sid key : string) (v : pyval)
| EvRemoveBatch (batch_id : string)
| EvWriteState (snapshot : bookmarks).

(** The mutable world: the shared state object and the number of clock
    readings taken so far. *)
Record world := mkWorld { w_state : bookmarks; w_ticks : nat }.

(** State, exceptions and an output log. On an exception the world keeps
    the mutations made before it (the state dict is shared with the
    caller) and the log keeps the messages already written. *)
Definition M (A : Type) : Type := world -> (exc + A) * world * list event.

Definition ret {A} (a : A) : M A := fun w => (inr a, w, []).

Definition bind {A B} (m : M A) (f : A -> M B) : M B :=
  fun w =>
    match m w with
    | (inr a, w1, l1) => let '(r, w2, l2) := f a w1 in (r, w2, l1 ++ l2)
    | (inl e, w1, l1) => (inl e, w1, l1)
    end.

Notation "x <- m ;; k" := (bind m (fun x => k))
  (at level 100, m at next level, right associativity).
Notation "m ;;; k" := (bind m (fun _ => k))
  (at level 100, right associativity).

Definition throw {A} (e : exc) : M A := fun w => (inl e, w, []).

Definition lift {A} (r : exc + A) : M A :=
  match r with inl e => throw e | inr a => ret a end.

Definition try_except {A} (m : M A) (handler : exc -> M A) : M A :=
  fun w =>
    match m w with
    | (inl e, w1, l1) => let '(r, w2, l2) := handler e w1 in (r, w2, l1 ++ l2)
    | ok => ok
    end.

Definition get_state : M bookmarks := fun w => (inr (w_state w), w, []).

Definition emit (ev : event) : M unit := fun w => (inr tt, w, [ev]).

(** [state = singer.write_bookmark(state, sid, key, v)]: the dict is
    updated in place. *)
Definition write_bookmark (sid key : string) (v : pyval) : M unit :=
  fun w =>
    (inr tt, mkWorld (write_bookmark_map (w_state w) sid key v) (w_ticks w),
     [EvWriteBookmark sid key v]).

(** [singer.write_state(state)] *)
Definition write_state : M unit :=
  fun w => (inr tt, w, [EvWriteState (w_state w)]).

Fixpoint mapM_ {A} (f : A -> M unit) (l : list A) : M unit :=
  match l with
  | [] => ret tt
  | x :: l' => f x ;;; mapM_ f l'
  end.

Fixpoint foldM {A B} (f : B -> A -> M B) (acc : B) (l : list A) : M B :=
  match l with
  | [] => ret acc
  | x :: l' => acc' <- f acc x ;; foldM f acc' l'
  end.

(** The catalog entry of a stream. [replication_key] is [None] when the
    entry has no such key ([catalog_entry.get('replication_key')]). *)
Record catalog_entry := {
  tap_stream_id : string;
  stream : string;
  stream_alias : option string;
  replication_key : option string;
  schema : pyval
}.

(** The Salesforce client; [pk_chunking] is the flag the query engine
    sets before yielding the records of a chunked job. *)
Record salesforce := { pk_chunking : bool }.

Definition rk_truthy (rk : option string) : bool :=
  match rk with Some k => negb (String.eqb k "") | None => false end.

(** The dict key [replication_key] (a None key is serialised as "null"). *)
Definition rk_key (rk : option string) : string :=
  match rk with Some k => k | None => "null" end.

(** [stream_alias or stream] *)
Definition message_stream (ce : catalog_entry) : string :=
  match stream_alias ce with
  | Some a => if String.eqb a "" then stream ce else a
  | None => stream ce
  end.

(** A list of batch ids as kept under "BatchIDs" (a list of id strings;
    other contents are not modelled and raise). *)
Definition batch_id_list (v : pyval) : exc + list string :=
  match v with
  | VList l =>
      let ids := omap (fun x => match x with VStr s => Some s | _ => None end) l in
      if Nat.eqb (length ids) (length l) then inr ids
      else raise_ KTypeError "batch id is not a str"
  | _ => raise_ KTypeError "object is not subscriptable"
  end.

(** [list.remove(x)]: drops the first occurrence. *)
Fixpoint remove_first (x : string) (l : list string) : option (list string) :=
  match l with
  | [] => None
  | y :: l' =>
      if String.eqb y x then Some l'
      else option_map (cons y) (remove_first x l')
  end.

(** The collaborators outside this file. *)
Record tap_env := {
  (** [time.time() * 1000] truncated (and [singer_utils.now()], same clock)
      at the n-th reading of the clock *)
  clock_ms : nat -> Z;
  (** [dateutil.parser.parse] on text; [None] when it raises *)
  parse_time : string -> option Z;
  (** [singer_utils.strftime] of a datetime *)
  format_time : Z -> string;
  (** [sf.get_start_date(state, catalog_entry)] *)
  get_start_date : bookmarks -> catalog_entry -> string;
  (** [sf.query(catalog_entry, state)]: the records it yields, then the
      exception it raises instead of finishing, if any *)
  query : catalog_entry -> bookmarks -> list pyval * option exc;
  (** [bulk.get_batch_results(job_id, batch_id, catalog_entry)], likewise *)
  get_batch_results : string -> string -> catalog_entry -> list pyval * option exc;
  (** [transformer.transform(rec, schema)], with [transform_bulk_data_hook]
      as its pre-hook *)
  transform : pyval -> pyval -> exc + pyval
}.

(** ** The drivers (sync.py, lines 30-161) *)

Section Drivers.

Variable env : tap_env.

(** One reading of the clock. *)
Definition read_clock : M Z :=
  fun w => (inr (clock_ms env (w_ticks w)), mkWorld (w_state w) (S (w_ticks w)), []).

(** [singer_utils.strptime_with_tz(v)] *)
Definition strptime_with_tz (v : pyval) : exc + Z :=
  match v with
  | VStr s =>
      match parse_time env s with
      | Some t => inr t
      | None => raise_ KValueError "String does not contain a date"
      end
  | _ => raise_ KTypeError "Parser must be a string or character stream"
  end.

(** [singer_utils.strptime(v)], i.e. [datetime.datetime.strptime(v, fmt)],
    which only accepts a str. *)
Definition strptime (v : pyval) : exc + pyval :=
  match v with
  | VStr s =>
      match parse_time env s with
      | Some t => inr (VTime t)
      | None => raise_ KValueError "time data does not match format"
      end
  | _ => raise_ KTypeError "strptime() argument 1 must be str"
  end.

(** [singer_utils.strftime(t)] *)
Definition strftime (t : Z) : pyval := VStr (format_time env t).

(** [get_stream_version(catalog_entry, state)] *)
Definition get_stream_version (ce : catalog_entry) : M pyval :=
  st <- get_state ;;
  let bm := get_bookmark st (tap_stream_id ce) "version" in
  stream_version <- (if truthy bm then ret bm
                     else (t <- read_clock ;; ret (VInt t))) ;;
  if rk_truthy (replication_key ce) then ret stream_version
  else (t <- read_clock ;; ret (VInt t)).

(** [replication_key and singer_utils.strptime_with_tz(rec[replication_key])];
    [None] stands for the falsy result when there is no replication key. *)
Definition replication_key_value (ce : catalog_entry) (rec : pyval) : M (option Z) :=
  match replication_key ce with
  | Some k =>
      if rk_truthy (replication_key ce) then
        v <- lift (py_getitem rec k) ;;
        t <- lift (strptime_with_tz v) ;;
        ret (Some t)
      else ret None
  | None => ret None
  end.

(** [transformer.transform] then [fix_record_anytype], then the
    RecordMessage. *)
Definition process_record (ce : catalog_entry) (stream_version : pyval)
    (start_time : Z) (raw : pyval) : M pyval :=
  rec <- lift (transform env raw (schema ce)) ;;
  rec <- lift (fix_record_anytype rec (schema ce)) ;;
  emit (EvRecord (message_stream ce) rec stream_version start_time) ;;;
  ret rec.

(** The loop body of [sync_records] (lines 113-145); the accumulator is
    [chunked_bookmark]. *)
Definition sync_records_step (sf : salesforce) (ce : catalog_entry)
    (stream_version : pyval) (start_time : Z) (chunked_bookmark : Z) (raw : pyval)
  : M Z :=
  rec <- process_record ce stream_version start_time raw ;;
  rkv <- replication_key_value ce rec ;;
  let k := rk_key (replication_key ce) in
  if pk_chunking sf then
    match rkv with
    | Some t =>
        if (t <=? start_time) && (chunked_bookmark <? t) then
          v <- lift (py_getitem rec k) ;;
          cb <- lift (strptime_with_tz v) ;;
          write_bookmark (tap_stream_id ce) "JobHighestBookmarkSeen" (strftime cb) ;;;
          write_state ;;;
          ret cb
        else ret chunked_bookmark
    | None => ret chunked_bookmark
    end
  else
    match rkv with
    | Some t =>
        if t <=? start_time then
          v <- lift (py_getitem rec k) ;;
          write_bookmark (tap_stream_id ce) k v ;;;
          write_state ;;;
          ret chunked_bookmark
        else ret chunked_bookmark
    | None => ret chunked_bookmark
    end.

(** Lines 147-161, after the last record. *)
Definition sync_records_end (sf : salesforce) (ce : catalog_entry)
    (stream_version : pyval) (chunked_bookmark : Z) : M unit :=
  (if negb (rk_truthy (replication_key ce)) then
     emit (EvActivateVersion (message_stream ce) stream_version) ;;;
     write_bookmark (tap_stream_id ce) "version" VNone
   else ret tt) ;;;
  if pk_chunking sf then
    v <- lift (strptime (VTime chunked_bookmark)) ;;
    write_bookmark (tap_stream_id ce) (rk_key (replication_key ce)) v
  else ret tt.

(** Lines 100-109: the values a pass is set up with. *)
Definition sync_records_init (ce : catalog_entry) : M (Z * pyval * Z) :=
  st <- get_state ;;
  chunked_bookmark <- lift (strptime_with_tz (VStr (get_start_date env st ce))) ;;
  stream_version <- get_stream_version ce ;;
  start_time <- read_clock ;;
  ret (chunked_bookmark, stream_version, start_time).

(** [sync_records(sf, catalog_entry, state, counter)] (the counter is not
    modelled). *)
Definition sync_records (sf : salesforce) (ce : catalog_entry) : M unit :=
  init <- sync_records_init ce ;;
  let '(chunked_bookmark, stream_version, start_time) := init in
  st <- get_state ;;
  let '(recs, qerr) := query env ce st in
  cb <- foldM (sync_records_step sf ce stream_version start_time) chunked_bookmark recs ;;
  match qerr with
  | Some e => throw e
  | None => sync_records_end sf ce stream_version cb
  end.

(** [str(ex)] *)
Definition exc_str (e : exc) : string :=
  match exc_kind_of e with
  | KKeyError => "'" ++ exc_msg e ++ "'"
  | _ => exc_msg e
  end.

(** [sync_stream(sf, catalog_entry, state)] *)
Definition sync_stream (sf : salesforce) (ce : catalog_entry) : M unit :=
  try_except (sync_records sf ce ;;; write_state)
    (fun ex =>
       match exc_kind_of ex with
       | KTapSalesforce cls =>
           throw (Exc (KTapSalesforce cls)
                    ("Error syncing " ++ stream ce ++ ": " ++ exc_str ex)
                    None (Some ex))
       | KBaseOnly _ => throw ex
       | _ =>
           throw (Exc (KException "Exception")
                    ("Unexpected error syncing " ++ stream ce ++ ": " ++ exc_str ex)
                    (Some ex) (Some ex))
       end).

(** [batch_ids.remove(batch_id)]. [batch_ids] is the very list object
    stored under "BatchIDs" in the state, so the removal is a change of
    the state. *)
Definition remove_batch_id (sid batch_id : string) : M unit :=
  st <- get_state ;;
  ids <- lift (batch_id_list (get_bookmark st sid "BatchIDs")) ;;
  match remove_first batch_id ids with
  | Some ids' =>
      fun w =>
        (inr tt,
         mkWorld (write_bookmark_map (w_state w) sid "BatchIDs" (VList (map VStr ids')))
                 (w_ticks w),
         [EvRemoveBatch batch_id])
  | None => throw (Exc KValueError "list.remove(x): x not in list" None None)
  end.

(** The inner loop body of [resume_syncing_bulk_query] (lines 56-71); the
    accumulator is [current_bookmark]. *)
Definition resume_record_step (ce : catalog_entry) (stream_version : pyval)
    (start_time : Z) (current_bookmark : Z) (raw : pyval) : M Z :=
  rec <- process_record ce stream_version start_time raw ;;
  rkv <- replication_key_value ce rec ;;
  match rkv with
  | Some t =>
      if (t <=? start_time) && (current_bookmark <? t) then
        v <- lift (py_getitem rec (rk_key (replication_key ce))) ;;
        lift (strptime_with_tz v)
      else ret current_bookmark
  | None => ret current_bookmark
  end.

(** The outer loop body (lines 55-78): drain one batch, then record it. *)
Definition resume_batch (ce : catalog_entry) (job_id : string)
    (stream_version : pyval) (start_time : Z) (current_bookmark : Z)
    (batch_id : string) : M Z :=
  let '(recs, err) := get_batch_results env job_id batch_id ce in
  cur <- foldM (resume_record_step ce stream_version start_time) current_bookmark recs ;;
  match err with
  | Some e => throw e
  | None =>
      write_bookmark (tap_stream_id ce) "JobHighestBookmarkSeen" (strftime cur) ;;;
      remove_batch_id (tap_stream_id ce) batch_id ;;;
      write_state ;;;
      ret cur
  end.

(** [resume_syncing_bulk_query(sf, catalog_entry, job_id, state, counter)] *)
Definition resume_syncing_bulk_query (ce : catalog_entry) (job_id : string) : M unit :=
  st <- get_state ;;
  let jhbs := get_bookmark st (tap_stream_id ce) "JobHighestBookmarkSeen" in
  current_bookmark <- lift (strptime_with_tz
                              (if truthy jhbs then jhbs
                               else VStr (get_start_date env st ce))) ;;
  let batch_ids := get_bookmark st (tap_stream_id ce) "BatchIDs" in
  start_time <- read_clock ;;
  stream_version <- get_stream_version ce ;;
  ids <- lift (batch_id_list batch_ids) ;;
  _ <- foldM (resume_batch ce job_id stream_version start_time) current_bookmark ids ;;
  ret tt.

End Drivers.

(** ** A concrete environment, used to run the drivers on small passes

    Instants are whole numbers written in decimal; the clock ticks by one
    second per reading, starting at [base]; the query engine and the batch
    results replay fixed lists; the transformer passes records through. *)

Fixpoint N_digits (fuel : nat) (n : N) (acc : string) : string :=
  match fuel with
  | O => acc
  | S f =>
      let acc' := String (ascii_of_N (48 + N.modulo n 10)) acc in
      if N.eqb (N.div n 10) 0 then acc' else N_digits f (N.div n 10) acc'
  end.

Definition Z_text (t : Z) : string :=
  if t <? 0 then "-" ++ N_digits 64 (Z.to_N (- t)) ""
  else N_digits 64 (Z.to_N t) "".

Definition demo_env (base : Z) (start_date : string) (recs : list pyval)
    (batches : list (string * list pyval)) : tap_env := {|
  clock_ms := fun n => base + 1000 * Z.of_nat n;
  parse_time := parse_int_text;
  format_time := Z_text;
  get_start_date := fun _ _ => start_date;
  query := fun _ _ => (recs, None);
  get_batch_results := fun _ bid _ =>
    (default [] (snd <$> List.find (fun p => String.eqb p.1 bid) batches), None);
  transform := fun r _ => inr r
|}.

Definition demo_entry (rk : option string) : catalog_entry := {|
  tap_stream_id := "Account";
  stream := "Account";
  stream_alias := None;
  replication_key := rk;
  schema := VDict [("properties",
                    VDict [("Id", VDict [("type", VStr "string")]);
                           ("SystemModstamp", VDict [("type", VStr "string")])])]
|}.

Definition demo_rec (id : string) (ts : Z) : pyval :=
  VDict [("Id", VStr id); ("SystemModstamp", VStr (Z_text ts))].

Definition run {A} (m : M A) (st : bookmarks) : (exc + A) * world * list event :=
  m (mkWorld st 0).

(** ** Reading a pass off its log *)

(** The records of the RecordMessages of a log, in order. *)
Definition emitted_records (l : list event) : list pyval :=
  omap (fun ev => match ev with EvRecord _ r _ _ => Some r | _ => None end) l.

(** The flushed snapshots of a log, in order. *)
Definition flushed_states (l : list event) : list bookmarks :=
  omap (fun ev => match ev with EvWriteState s => Some s | _ => None end) l.

(** The instant of a record's replication-key value, when it parses. *)
Definition rk_instant (env : tap_env) (k : string) (r : pyval) : option Z :=
  match py_getitem r k with
  | inr v => match strptime_with_tz env v with inr t => Some t | inl _ => None end
  | inl _ => None
  end.

(** The record's replication-key value is at or before [start]. *)
Definition rk_at_or_before (env : tap_env) (k : string) (start : Z) (r : pyval) : bool :=
  match rk_instant env k r with Some t => t <=? start | None => false end.

(** The last record of [rs] satisfying [q]. *)
Fixpoint last_such (q : pyval -> bool) (rs : list pyval) : option pyval :=
  match rs with
  | [] => None
  | r :: rs' =>
      match last_such q rs' with
      | Some r' => Some r'
      | None => if q r then Some r else None
      end
  end.

(** ** Auxiliary definitions used by the proofs and the sample runs *)

Definition anytype_schema (k : string) : pyval :=
  VDict [("properties", VDict [(k, VDict [])])].

Definition rk_raw (k : string) (r : pyval) : option pyval :=
  match py_getitem r k with inr v => Some v | inl _ => None end.

Definition bookmark_fold (env : tap_env) (k : string) (start : Z) (d : pyval)
    (rs : list pyval) : pyval :=
  fold_left (fun acc r => if rk_at_or_before env k start r
                          then default VNone (rk_raw k r) else acc) rs d.

Definition e_c1 : tap_env :=
  demo_env 5000 "100" [demo_rec "a" 300; demo_rec "b" 200] [].

Definition c1_run := run (sync_records e_c1 {| pk_chunking := false |}
                            (demo_entry (Some "SystemModstamp"))) ∅.

(** [m] only makes runs related by [P]. *)
Definition runs_in {A} (P : world -> world -> list event -> Prop) (m : M A) : Prop :=
  forall w r w' l, m w = (r, w', l) -> P w w' l.

(** Bookmarks other than the fields [ks] of stream [sid] are unchanged. *)
Definition frame (sid : string) (ks : list string) (w w' : world) : Prop :=
  forall sid' key, ~ (sid' = sid /\ key ∈ ks) ->
  get_bookmark (w_state w') sid' key = get_bookmark (w_state w) sid' key.

(** The log of the record loop of a chunked pass: RecordMessages, and
    writes of the high-watermark each immediately followed by a flush of a
    state holding it. *)
Inductive chunk_log (sid : string) : list event -> Prop :=
| chunk_log_nil : chunk_log sid []
| chunk_log_record s r v t l :
    chunk_log sid l -> chunk_log sid (EvRecord s r v t :: l)
| chunk_log_watermark v st l :
    get_bookmark st sid "JobHighestBookmarkSeen" = v ->
    chunk_log sid l ->
    chunk_log sid (EvWriteBookmark sid "JobHighestBookmarkSeen" v :: EvWriteState st :: l).

Definition chunk_run (sid : string) (w w' : world) (l : list event) : Prop :=
  frame sid ["JobHighestBookmarkSeen"] w w' /\ chunk_log sid l.

Definition e_clock (base : Z) : tap_env := demo_env base "100" [] [].

(** A wall clock that returns the same millisecond for every reading. *)
Definition e_stuck_clock : tap_env := {|
  clock_ms := fun _ => 5000;
  parse_time := parse_int_text;
  format_time := Z_text;
  get_start_date := fun _ _ => "100";
  query := fun _ _ => ([demo_rec "a" 300], None);
  get_batch_results := fun _ _ _ => ([], None);
  transform := fun r _ => inr r
|}.

(** A query engine that fails with the given error after one record. *)
Definition e_failing (e : exc) : tap_env := {|
  clock_ms := fun n => 5000 + 1000 * Z.of_nat n;
  parse_time := parse_int_text;
  format_time := Z_text;
  get_start_date := fun _ _ => "100";
  query := fun _ _ => ([demo_rec "a" 300], Some e);
  get_batch_results := fun _ _ _ => ([], None);
  transform := fun r _ => inr r
|}.

Definition quota_error : exc :=
  Exc (KTapSalesforce "TapSalesforceQuotaExceededException") "quota" None None.

Definition is_record_event (ev : event) : Prop :=
  exists s r v t, ev = EvRecord s r v t.

(** The log of a resumed job over the batch ids [ids]: per batch, its
    records, the watermark write, the removal of the id and the flush of a
    snapshot that lists exactly the ids still to go and holds the
    watermark. *)
Inductive resume_log (env : tap_env) (sid : string) : list string -> list event -> Prop :=
| resume_log_nil : resume_log env sid [] []
| resume_log_cons b ids rs cur s l :
    Forall is_record_event rs ->
    get_bookmark s sid "BatchIDs" = VList (map VStr ids) ->
    get_bookmark s sid "JobHighestBookmarkSeen" = strftime env cur ->
    resume_log env sid ids l ->
    resume_log env sid (b :: ids)
      (rs ++ [EvWriteBookmark sid "JobHighestBookmarkSeen" (strftime env cur);
              EvRemoveBatch b; EvWriteState s] ++ l).

Definition e_c2 : tap_env :=
  demo_env 5000 "100" [] [("b1", [demo_rec "a" 300]); ("b2", [demo_rec "b" 400])].

Definition c2_state : bookmarks :=
  <["Account" := <["BatchIDs" := VList [VStr "b1"; VStr "b2"]]> ∅]> ∅.

(** The store a re-invocation starts from after a crash that cut the log
    to [l]: the last snapshot flushed, else the store the run started with. *)
Definition persisted_after (st0 : bookmarks) (l : list event) : bookmarks :=
  default st0 (last (flushed_states l)).

(** [raw] post-processed: [transformer.transform] then [fix_record_anytype]
    give [rec]. *)
Definition post_processed (env : tap_env) (ce : catalog_entry) (raw rec : pyval) : Prop :=
  exists r0, transform env raw (schema ce) = inr r0 /\
             fix_record_anytype r0 (schema ce) = inr rec.

(** Every RecordMessage of [l] names stream [s], version [v] and extraction
    time [t]. *)
Definition records_tagged (s : string) (v : pyval) (t : Z) (l : list event) : Prop :=
  forall s' r v' t', EvRecord s' r v' t' ∈ l -> s' = s /\ v' = v /\ t' = t.

(** No activate-version message in [l]. *)
Definition no_activation (l : list event) : Prop :=
  forall s v, EvActivateVersion s v ∉ l.

(** The log of a non-chunked pass over a stream keyed by [k]:
    RecordMessages, and writes of the cursor field [k], each immediately
    followed by a flush of a state holding the written value. *)
Inductive cursor_log (sid k : string) : list event -> Prop :=
| cursor_log_nil : cursor_log sid k []
| cursor_log_record s r v t l :
    cursor_log sid k l -> cursor_log sid k (EvRecord s r v t :: l)
| cursor_log_write v st l :
    get_bookmark st sid k = v ->
    cursor_log sid k l ->
    cursor_log sid k (EvWriteBookmark sid k v :: EvWriteState st :: l).

Definition cursor_run (sid k : string) (w w' : world) (l : list event) : Prop :=
  frame sid [k] w w' /\ cursor_log sid k l.

(** The values written to JobHighestBookmarkSeen of stream [sid] in [l]. *)
Definition watermarks (sid : string) (l : list event) : list pyval :=
  omap (fun ev => match ev with
                  | EvWriteBookmark s k v =>
                      if String.eqb s sid && String.eqb k "JobHighestBookmarkSeen"
                      then Some v else None
                  | _ => None
                  end) l.

(** [no_activation] as a relation on runs, for [runs_in]. *)
Definition na_run (w w' : world) (l : list event) : Prop := no_activation l.

(** A run that changes no bookmark but the watermark and the batch list
    of stream [sid]. *)
Definition resume_frame (sid : string) (w w' : world) (l : list event) : Prop :=
  frame sid ["JobHighestBookmarkSeen"; "BatchIDs"] w w'.

(** * Properties *)

Example fix_anytype_value_3_14 :
  fix_anytype_value (VStr "3.14") = VFloat (FDec 314 (-2)).
Proof. reflexivity. Qed.
Example fix_anytype_value_42 :
  fix_anytype_value (VStr " 4_2 ") = VFloat (FDec 42 0).
Proof. reflexivity. Qed.
Example fix_anytype_value_hello :
  fix_anytype_value (VStr "hello") = VStr "hello".
Proof. reflexivity. Qed.
Example fix_anytype_value_inf :
  fix_anytype_value (VStr "-Infinity") = VFloat (FInf true).
Proof. reflexivity. Qed.
Example py_int_42 : py_int (VStr "42") = inr (VInt 42).
Proof. reflexivity. Qed.

(** ** fix_record_anytype *)

Lemma try_cast_float_str (s : string) :
  try_cast (VStr s) py_float = VStr s \/
  exists f, try_cast (VStr s) py_float = VFloat f.
Proof.
  unfold try_cast, py_float. destruct (parse_float_text s); eauto.
Qed.

(** The integer conversion in [fix_record_anytype] is overwritten by the
    float conversion: no text value is ever turned into an integer. *)
Lemma fix_anytype_value_str_not_int (s : string) (z : Z) :
  fix_anytype_value (VStr s) <> VInt z.
Proof.
  unfold fix_anytype_value.
  destruct (py_eq_str (VStr s) ""); [discriminate|].
  destruct (py_in_str_list (VStr s) ["true"; "false"]); [discriminate|].
  destruct (try_cast_float_str s) as [-> | [f ->]]; discriminate.
Qed.

(** C7 (code_bug). On the six sample inputs of an untyped field the record
    repair yields: "42" -> the float 42.0 (not the integer 42), "3.14" -> the
    float 3.14, "true" -> True, "false" -> False, "" -> None, "hello" ->
    "hello". *)
Theorem fix_record_anytype_samples :
  fix_record_anytype (VDict [("F", VStr "42")]) (anytype_schema "F")
    = inr (VDict [("F", VFloat (FDec 42 0))]) /\
  fix_record_anytype (VDict [("F", VStr "3.14")]) (anytype_schema "F")
    = inr (VDict [("F", VFloat (FDec 314 (-2)))]) /\
  fix_record_anytype (VDict [("F", VStr "true")]) (anytype_schema "F")
    = inr (VDict [("F", VBool true)]) /\
  fix_record_anytype (VDict [("F", VStr "false")]) (anytype_schema "F")
    = inr (VDict [("F", VBool false)]) /\
  fix_record_anytype (VDict [("F", VStr "")]) (anytype_schema "F")
    = inr (VDict [("F", VNone)]) /\
  fix_record_anytype (VDict [("F", VStr "hello")]) (anytype_schema "F")
    = inr (VDict [("F", VStr "hello")]) /\
  (forall z, fix_record_anytype (VDict [("F", VStr "42")]) (anytype_schema "F")
             <> inr (VDict [("F", VInt z)])).
Proof.
  repeat split; try reflexivity.
  intros z H. vm_compute in H. discriminate.
Qed.

(** Each entry of the output of [fix_items] has the key of the matching
    input entry; its value is the input value unless the field is untyped,
    and then it is the repaired value. *)
Lemma fix_items_entries (schema : pyval) (items items' : list (string * pyval)) :
  fix_items schema items = inr items' ->
  Forall2 (fun a b => b.1 = a.1 /\
             (field_untyped schema a.1 = inr false -> b.2 = a.2) /\
             (field_untyped schema a.1 = inr true -> b.2 = fix_anytype_value a.2))
          items items'.
Proof.
  revert items'. induction items as [|[k v] rest IH]; intros items' H; simpl in H.
  - injection H as <-. constructor.
  - destruct (field_untyped schema k) as [e|u] eqn:Hu; [discriminate|].
    destruct (fix_items schema rest) as [e|rest'] eqn:Hr; [discriminate|].
    injection H as <-. constructor; [|by apply IH].
    simpl. repeat split; intros Hu'; rewrite Hu in Hu'; injection Hu' as ->; done.
Qed.

Lemma dict_lookup_Forall2 (P : string * pyval -> string * pyval -> Prop)
    (items items' : list (string * pyval)) (k : string) (v : pyval) :
  Forall2 (fun a b => b.1 = a.1 /\ (a.1 = k -> P a b)) items items' ->
  dict_lookup items k = Some v ->
  exists v', dict_lookup items' k = Some v' /\ P (k, v) (k, v').
Proof.
  induction 1 as [|[ka va] [kb vb] l l' [Hk HP] HF IH]; simpl; [discriminate|].
  simpl in Hk, HP. subst kb. intros Hl.
  destruct (String.eqb ka k) eqn:E.
  - apply String.eqb_eq in E. subst ka. injection Hl as ->. eauto.
  - auto.
Qed.

Lemma fix_items_ok (schema props : pyval) (items : list (string * pyval)) :
  py_getitem schema "properties" = inr props ->
  Forall (fun kv => exists d, py_getitem props kv.1 = inr (VDict d)) items ->
  exists items', fix_items schema items = inr items'.
Proof.
  intros Hp. induction 1 as [|[k v] rest [d Hd] _ [rest' IH]]; simpl.
  - eauto.
  - unfold field_untyped. rewrite Hp. simpl in Hd. rewrite Hd. simpl.
    destruct (dict_lookup d "type"); rewrite IH; eauto.
Qed.

(** C8 (counterexample). [fix_record_anytype] raises [KeyError] on a record
    field that the schema's "properties" do not list. *)
Lemma fix_record_anytype_raises_on_unknown_field :
  fix_record_anytype (VDict [("Foo", VStr "1")]) (VDict [("properties", VDict [])])
  = inl (Exc KKeyError "Foo" None None).
Proof. reflexivity. Qed.

(** C8 (amended). No value coercion ever raises ([try_cast] swallows every
    exception); [fix_record_anytype] returns a record whenever the schema's
    "properties" hold a dict for every field of the record, and
    [transform_bulk_data_hook] returns a value whenever the field schema has
    a "type" that is a string or a list (the only schemas the Transformer
    hands to its pre-hook are ones with a "type"). *)
Theorem record_postprocess_total
    (items : list (string * pyval)) (schema props : pyval)
    (data : pyval) (typ : string) (fschema t : pyval) :
  py_getitem schema "properties" = inr props ->
  Forall (fun kv => exists d, py_getitem props kv.1 = inr (VDict d)) items ->
  py_getitem fschema "type" = inr t ->
  (exists s, t = VStr s) \/ (exists l, t = VList l) ->
  (forall v (coercion : pyval -> exc + pyval),
     try_cast v coercion = v \/ coercion v = inr (try_cast v coercion)) /\
  (exists r, fix_record_anytype (VDict items) schema = inr r) /\
  (exists r, transform_bulk_data_hook data typ fschema = inr r).
Proof.
  intros Hp Hall Ht Hty. split; [|split].
  - intros v c. unfold try_cast. destruct (c v); auto.
  - destruct (fix_items_ok schema props items Hp Hall) as [items' Hi].
    simpl. rewrite Hi. eauto.
  - unfold transform_bulk_data_hook. destruct (py_eq_str data ""); [|eauto].
    rewrite Ht. destruct Hty as [[s ->] | [l ->]]; simpl; eauto.
Qed.

Lemma record_postprocess_total_witness :
  (exists r, fix_record_anytype (VDict [("F", VStr "42")]) (anytype_schema "F")
             = inr r) /\
  (exists r, transform_bulk_data_hook (VStr "") "string"
               (VDict [("type", VList [VStr "null"; VStr "string"])]) = inr r).
Proof.
  destruct (record_postprocess_total [("F", VStr "42")] (anytype_schema "F")
              (VDict [("F", VDict [])]) (VStr "") "string"
              (VDict [("type", VList [VStr "null"; VStr "string"])])
              (VList [VStr "null"; VStr "string"]))
    as [_ [H1 H2]].
  - reflexivity.
  - repeat constructor. simpl. eexists. reflexivity.
  - reflexivity.
  - right. eexists. reflexivity.
  - split; assumption.
Defined.

(** C10. [fix_record_anytype] leaves every field whose schema entry has a
    non-null "type" at its original value, and keeps the record's keys. *)
Theorem fix_record_anytype_typed_fields_unchanged
    (rec schema rec' : pyval) :
  fix_record_anytype rec schema = inr rec' ->
  exists items items',
    rec = VDict items /\ rec' = VDict items' /\
    map fst items' = map fst items /\
    (forall k v, field_untyped schema k = inr false ->
                 dict_lookup items k = Some v -> dict_lookup items' k = Some v).
Proof.
  intros H. destruct rec as [| | | | | | items |]; try discriminate.
  simpl in H. destruct (fix_items schema items) as [e|items'] eqn:Hi; [discriminate|].
  injection H as <-. exists items, items'.
  pose proof (fix_items_entries schema items items' Hi) as HF.
  split; [done|]. split; [done|]. split.
  - clear Hi. induction HF as [|a b l l' [Hab _] _ IH]; simpl; [done|].
    by rewrite Hab, IH.
  - intros k v Hk Hl.
    destruct (dict_lookup_Forall2
                (fun a b => field_untyped schema a.1 = inr false -> b.2 = a.2)
                items items' k v) as [v' [Hv' HP]].
    + eapply Forall2_impl; [exact HF|]. intros a b [H1 [H2 _]]. split; [done|].
      intros _. exact H2.
    + exact Hl.
    + simpl in HP. rewrite Hv'. f_equal. by apply HP.
Qed.

Lemma fix_record_anytype_typed_fields_unchanged_witness :
  exists items items',
    VDict [("N", VStr "7")] = VDict items /\
    VDict [("N", VStr "7")] = VDict items' /\
    map fst items' = map fst items /\
    (forall k v,
       field_untyped (VDict [("properties", VDict [("N", VDict [("type", VStr "string")])])]) k
         = inr false ->
       dict_lookup items k = Some v -> dict_lookup items' k = Some v).
Proof.
  apply (fix_record_anytype_typed_fields_unchanged (VDict [("N", VStr "7")])
           (VDict [("properties", VDict [("N", VDict [("type", VStr "string")])])])).
  reflexivity.
Defined.

(** ** The monad *)

Lemma bind_inr {A B} (m : M A) (f : A -> M B) w b w2 l :
  bind m f w = (inr b, w2, l) ->
  exists a w1 l1 l2, m w = (inr a, w1, l1) /\ f a w1 = (inr b, w2, l2) /\ l = l1 ++ l2.
Proof.
  unfold bind. destruct (m w) as [[[e|a] w1] l1]; [discriminate|].
  destruct (f a w1) as [[r w2'] l2] eqn:Hf. intros H. injection H; intros; subst.
  eauto 10.
Qed.

Lemma lift_inr {A} (r : exc + A) w a w' l :
  lift r w = (inr a, w', l) -> r = inr a /\ w' = w /\ l = [].
Proof. destruct r; simpl; unfold throw, ret; intros H; injection H; intros; subst; auto. Qed.

Lemma ret_inr {A} (x : A) w a w' l :
  ret x w = (inr a, w', l) -> a = x /\ w' = w /\ l = [].
Proof. unfold ret. intros H. injection H. intros; subst; auto. Qed.

Lemma foldM_inr {A B} (f : B -> A -> M B) (x : A) (xs : list A) acc w b w2 l :
  foldM f acc (x :: xs) w = (inr b, w2, l) ->
  exists a w1 l1 l2, f acc x w = (inr a, w1, l1) /\
                     foldM f a xs w1 = (inr b, w2, l2) /\ l = l1 ++ l2.
Proof. apply bind_inr. Qed.

Ltac inv_bind H Hm Hf :=
  let a := fresh "a" in let w := fresh "w" in
  let l1 := fresh "l" in let l2 := fresh "l" in let El := fresh "El" in
  apply bind_inr in H; destruct H as (a & w & l1 & l2 & Hm & Hf & El); subst.

Ltac inv_lift H :=
  let E := fresh "E" in let Ew := fresh "Ew" in let El := fresh "El" in
  apply lift_inr in H; destruct H as (E & Ew & El); subst.

Ltac inv_ret H :=
  let E := fresh "E" in let Ew := fresh "Ew" in let El := fresh "El" in
  apply ret_inr in H; destruct H as (E & Ew & El); subst.

Lemma emitted_records_app (l1 l2 : list event) :
  emitted_records (l1 ++ l2) = emitted_records l1 ++ emitted_records l2.
Proof. induction l1 as [|[] l1 IH]; simpl; rewrite ?IH; done. Qed.

Lemma flushed_states_app (l1 l2 : list event) :
  flushed_states (l1 ++ l2) = flushed_states l1 ++ flushed_states l2.
Proof. induction l1 as [|[] l1 IH]; simpl; rewrite ?IH; done. Qed.

Lemma get_bookmark_write (st : bookmarks) sid key v :
  get_bookmark (write_bookmark_map st sid key v) sid key = v.
Proof.
  unfold get_bookmark, write_bookmark_map. by rewrite lookup_insert_eq; simpl;
  rewrite lookup_insert_eq.
Qed.

Lemma get_bookmark_write_ne (st : bookmarks) sid key key' v :
  key <> key' ->
  get_bookmark (write_bookmark_map st sid key v) sid key' = get_bookmark st sid key'.
Proof.
  intros Hne. unfold get_bookmark, write_bookmark_map. rewrite lookup_insert_eq. simpl.
  rewrite lookup_insert_ne by done. by destruct (st !! sid).
Qed.

(** [process_record] emits exactly the RecordMessage of the record it returns. *)
Lemma process_record_inr env ce sv start raw w rec w' l :
  process_record env ce sv start raw w = (inr rec, w', l) ->
  w' = w /\ l = [EvRecord (message_stream ce) rec sv start].
Proof.
  unfold process_record. intros H.
  inv_bind H Ht H1. inv_lift Ht. inv_bind H1 Hf H2. inv_lift Hf. inv_bind H2 He H3.
  unfold emit in He. injection He as <- <- <-. inv_ret H3. auto.
Qed.

Lemma replication_key_value_inr env ce k rec w o w' l :
  replication_key ce = Some k -> rk_truthy (Some k) = true ->
  replication_key_value env ce rec w = (inr o, w', l) ->
  w' = w /\ l = [] /\ exists v t, py_getitem rec k = inr v /\
                       strptime_with_tz env v = inr t /\ o = Some t /\
                       rk_instant env k rec = Some t.
Proof.
  intros Hk Ht H. unfold replication_key_value in H. rewrite Hk, Ht in H.
  inv_bind H Hg H1. inv_lift Hg. inv_bind H1 Hp H2. inv_lift Hp. inv_ret H2.
  repeat split; try done. exists a, a0. unfold rk_instant. rewrite E, E0. done.
Qed.

(** One record of a non-chunked keyed pass. *)
Lemma sync_step_nonchunked env sf ce k sv start cb raw w cb' w' l :
  pk_chunking sf = false -> replication_key ce = Some k -> rk_truthy (Some k) = true ->
  sync_records_step env sf ce sv start cb raw w = (inr cb', w', l) ->
  cb' = cb /\ w_ticks w' = w_ticks w /\
  exists rec, emitted_records l = [rec] /\
    get_bookmark (w_state w') (tap_stream_id ce) k =
      (if rk_at_or_before env k start rec then default VNone (rk_raw k rec)
       else get_bookmark (w_state w) (tap_stream_id ce) k).
Proof.
  intros Hpk Hk Ht H. unfold sync_records_step in H. rewrite Hpk in H.
  inv_bind H Hp H1. apply process_record_inr in Hp as [-> ->].
  inv_bind H1 Hr H2.
  apply (replication_key_value_inr _ _ k) in Hr as (-> & -> & v & t & Hv & Htv & -> & Hi);
    [|done|done].
  unfold rk_key in H2. rewrite Hk in H2.
  destruct (t <=? start) eqn:Hle.
  - inv_bind H2 Hg H3. inv_lift Hg. inv_bind H3 Hw H4. unfold write_bookmark in Hw.
    injection Hw as <- <- <-. inv_bind H4 Hs H5. unfold write_state in Hs.
    injection Hs as <- <- <-. inv_ret H5.
    repeat split. exists a. split; [done|]. simpl. unfold rk_raw.
    unfold rk_at_or_before. rewrite Hi, Hle, E. apply get_bookmark_write.
  - inv_ret H2. repeat split. exists a. split; [done|].
    unfold rk_at_or_before. rewrite Hi, Hle. done.
Qed.

Lemma bookmark_fold_last env k start d rs :
  bookmark_fold env k start d rs =
  match last_such (rk_at_or_before env k start) rs with
  | Some r => default VNone (rk_raw k r)
  | None => d
  end.
Proof.
  unfold bookmark_fold. revert d. induction rs as [|r rs IH]; intros d; simpl; [done|].
  rewrite IH. destruct (last_such _ rs); [done|].
  by destruct (rk_at_or_before env k start r).
Qed.

Lemma sync_loop_nonchunked env sf ce k sv start recs cb w cb' w' l :
  pk_chunking sf = false -> replication_key ce = Some k -> rk_truthy (Some k) = true ->
  foldM (sync_records_step env sf ce sv start) cb recs w = (inr cb', w', l) ->
  get_bookmark (w_state w') (tap_stream_id ce) k =
    bookmark_fold env k start (get_bookmark (w_state w) (tap_stream_id ce) k)
                  (emitted_records l).
Proof.
  intros Hpk Hk Ht. revert cb w l. induction recs as [|raw recs IH]; intros cb w l H.
  - simpl in H. inv_ret H. done.
  - apply foldM_inr in H as (cb1 & w1 & l1 & l2 & H1 & H2 & ->).
    apply (sync_step_nonchunked _ _ _ k) in H1 as (-> & _ & rec & Hr & Hb); try done.
    rewrite emitted_records_app, Hr. simpl. rewrite (IH _ _ _ H2), Hb. done.
Qed.

Lemma read_clock_inr env w t w' l :
  read_clock env w = (inr t, w', l) ->
  t = clock_ms env (w_ticks w) /\ w' = mkWorld (w_state w) (S (w_ticks w)) /\ l = [].
Proof. unfold read_clock. intros H. injection H. intros; subst. auto. Qed.

Lemma get_state_inr w st w' l :
  get_state w = (inr st, w', l) -> st = w_state w /\ w' = w /\ l = [].
Proof. unfold get_state. intros H. injection H. intros; subst. auto. Qed.

Ltac inv_clock H := apply read_clock_inr in H as (-> & -> & ->).
Ltac inv_get H := apply get_state_inr in H as (-> & -> & ->).

Lemma get_stream_version_inr env ce w v w' l :
  get_stream_version env ce w = (inr v, w', l) -> w_state w' = w_state w /\ l = [].
Proof.
  unfold get_stream_version. intros H. inv_bind H Hg H1. inv_get Hg.
  inv_bind H1 Hv H2.
  destruct (truthy _).
  - inv_ret Hv. destruct (rk_truthy _).
    + inv_ret H2. done.
    + inv_bind H2 Hc H3. inv_clock Hc. inv_ret H3. done.
  - inv_bind Hv Hc H3. inv_clock Hc. inv_ret H3.
    destruct (rk_truthy _).
    + inv_ret H2. done.
    + inv_bind H2 Hc H3. inv_clock Hc. inv_ret H3. done.
Qed.

Lemma sync_records_init_inr env ce w r w' l :
  sync_records_init env ce w = (inr r, w', l) -> w_state w' = w_state w /\ l = [].
Proof.
  unfold sync_records_init. intros H. inv_bind H Hg H1. inv_get Hg.
  inv_bind H1 Hp H2. inv_lift Hp. inv_bind H2 Hv H3.
  apply get_stream_version_inr in Hv as [Hs ->]. inv_bind H3 Hc H4.
  inv_clock Hc. inv_ret H4. done.
Qed.

(** The run of [sync_records] split into its parts. *)
Lemma sync_records_inr env sf ce w w' l :
  sync_records env sf ce w = (inr tt, w', l) ->
  exists cb sv start w1 recs cb' w2 l2 l3,
    sync_records_init env ce w = (inr (cb, sv, start), w1, []) /\
    w_state w1 = w_state w /\
    query env ce (w_state w1) = (recs, None) /\
    foldM (sync_records_step env sf ce sv start) cb recs w1 = (inr cb', w2, l2) /\
    sync_records_end env sf ce sv cb' w2 = (inr tt, w', l3) /\
    l = l2 ++ l3.
Proof.
  unfold sync_records. intros H. inv_bind H Hi H1. destruct a as [[cb sv] start].
  pose proof Hi as Hi'. apply sync_records_init_inr in Hi' as [Hs ->].
  inv_bind H1 Hg H2. inv_get Hg.
  destruct (query env ce (w_state w0)) as [recs qerr] eqn:Hq.
  inv_bind H2 Hf H3. destruct qerr as [e|]; [unfold throw in H3; discriminate|].
  exists cb, sv, start, w0, recs, a, w1, l, l1. repeat split; auto.
Qed.

Lemma sync_records_end_keyed_nonchunked env sf ce sv cb w w' l :
  pk_chunking sf = false -> rk_truthy (replication_key ce) = true ->
  sync_records_end env sf ce sv cb w = (inr tt, w', l) -> w' = w /\ l = [].
Proof.
  intros Hpk Ht H. unfold sync_records_end in H. rewrite Ht, Hpk in H. simpl in H.
  inv_bind H H1 H2. inv_ret H1. inv_ret H2. done.
Qed.

Lemma last_such_spec (q : pyval -> bool) (rs : list pyval) (r : pyval) :
  last_such q rs = Some r -> r ∈ rs /\ q r = true.
Proof.
  induction rs as [|x rs IH]; simpl; [discriminate|].
  destruct (last_such q rs) as [r'|].
  - intros [= Heq]. subst r'. destruct IH as [Hin Hq]; [done|]. split; [by right|done].
  - destruct (q x) eqn:Hx; [|discriminate]. intros [= Heq]. subst x.
    split; [left|done].
Qed.

Lemma last_such_none (q : pyval -> bool) (rs : list pyval) :
  last_such q rs = None -> forall r, r ∈ rs -> q r = false.
Proof.
  induction rs as [|x rs IH]; simpl; intros H r Hr; [by apply elem_of_nil in Hr|].
  destruct (last_such q rs); [discriminate|].
  apply elem_of_cons in Hr as [Heq|Hr].
  - rewrite Heq. by destruct (q x).
  - by apply IH.
Qed.

(** With the qualifying records arriving in non-decreasing order of their
    instants, the last one carries the greatest instant. *)
Lemma last_such_sorted_max (q : pyval -> bool) (f : pyval -> option Z)
    (rs : list pyval) (r : pyval) :
  (forall x, q x = true -> is_Some (f x)) ->
  Sorted Z.le (omap f (filter q rs)) ->
  last_such q rs = Some r ->
  forall r', r' ∈ rs -> q r' = true ->
  exists t t', f r' = Some t /\ f r = Some t' /\ t <= t'.
Proof.
  intros Hf. induction rs as [|x rs IH]; intros Hs Hl r' Hr' Hq'; simpl in Hl;
    [discriminate|].
  rewrite filter_cons in Hs.
  destruct (last_such q rs) as [r0|] eqn:Hl0.
  - injection Hl as Heq. subst r0.
    destruct (last_such_spec q rs r Hl0) as [Hin Hqr].
    assert (Hs' : Sorted Z.le (omap f (filter q rs))).
    { destruct (q x); [|done]. simpl in Hs. destruct (f x); [|done].
      by apply Sorted_inv in Hs as [? _]. }
    apply elem_of_cons in Hr' as [Heq|Hr']; [subst r'|by apply IH].
    rewrite Hq' in Hs. destruct (Hf x Hq') as [t Ht]. simpl in Hs. rewrite Ht in Hs.
    destruct (Hf r Hqr) as [t' Ht'].
    apply Sorted_StronglySorted in Hs; [|intros ???; lia].
    apply StronglySorted_inv in Hs as [_ Hall].
    rewrite Forall_forall in Hall.
    exists t, t'. repeat split; try done. apply Hall.
    apply list_elem_of_omap. exists r. split; [|done].
    apply list_elem_of_filter. rewrite Hqr. done.
  - destruct (q x) eqn:Hx; [|discriminate]. injection Hl as Heq. subst x.
    apply elem_of_cons in Hr' as [Heq|Hr'].
    + subst r'. destruct (Hf r Hq') as [t Ht]. by exists t, t.
    + rewrite (last_such_none q rs Hl0 r' Hr') in Hq'. discriminate.
Qed.

(** ** C1: the cursor bookmark of a non-chunked keyed pass *)

(** C1 (counterexample). Two records at 300 and 200, both before the pass
    start (6000), arrive in that order: the bookmark ends at "200", not at
    the maximum "300". *)
Lemma sync_records_bookmark_not_max :
  match run (sync_records e_c1 {| pk_chunking := false |} (demo_entry (Some "SystemModstamp"))) ∅ with
  | (inr tt, w', l) =>
      emitted_records l = [demo_rec "a" 300; demo_rec "b" 200] /\
      get_bookmark (w_state w') "Account" "SystemModstamp" = VStr "200"
  | _ => False
  end.
Proof. vm_compute. split; reflexivity. Qed.

(** C1 (amended). After a completed non-chunked pass over a stream with
    replication key [k], the bookmark under [k] is the raw replication-key
    value of the LAST emitted record whose instant is at or before the pass
    start (unchanged when there is none); records after the pass start never
    set it. When the qualifying records arrive in non-decreasing order, that
    last record carries the greatest instant among them. *)
Theorem sync_records_cursor_bookmark env sf ce k w cb sv start w1 w' l :
  pk_chunking sf = false -> replication_key ce = Some k -> k <> "" ->
  sync_records_init env ce w = (inr (cb, sv, start), w1, []) ->
  sync_records env sf ce w = (inr tt, w', l) ->
  get_bookmark (w_state w') (tap_stream_id ce) k =
    match last_such (rk_at_or_before env k start) (emitted_records l) with
    | Some r => default VNone (rk_raw k r)
    | None => get_bookmark (w_state w) (tap_stream_id ce) k
    end /\
  (Sorted Z.le (omap (rk_instant env k)
                  (filter (rk_at_or_before env k start) (emitted_records l))) ->
   forall r, last_such (rk_at_or_before env k start) (emitted_records l) = Some r ->
   forall r', r' ∈ emitted_records l -> rk_at_or_before env k start r' = true ->
   exists t t', rk_instant env k r' = Some t /\ rk_instant env k r = Some t' /\ t <= t').
Proof.
  intros Hpk Hk Hne Hinit H.
  assert (Ht : rk_truthy (Some k) = true).
  { simpl. destruct (String.eqb_spec k ""); done. }
  apply sync_records_inr in H as (cb0 & sv0 & start0 & w10 & recs & cb' & w2 & l2 & l3 &
                                  Hi & Hs & Hq & Hf & He & ->).
  rewrite Hinit in Hi. injection Hi as <- <- <- <-.
  apply sync_records_end_keyed_nonchunked in He as [-> ->]; [|done|by rewrite Hk].
  rewrite app_nil_r. split.
  - rewrite (sync_loop_nonchunked env sf ce k sv start recs cb w1 cb' w2 l2); try done.
    rewrite bookmark_fold_last, Hs. done.
  - intros Hsort r Hl. apply (last_such_sorted_max _ _ _ r); try done.
    intros x Hx. unfold rk_at_or_before in Hx. destruct (rk_instant env k x); [done|].
    discriminate.
Qed.

Lemma sync_records_cursor_bookmark_witness :
  get_bookmark (w_state c1_run.1.2) "Account" "SystemModstamp" =
    match last_such (rk_at_or_before e_c1 "SystemModstamp" 6000)
            (emitted_records c1_run.2) with
    | Some r => default VNone (rk_raw "SystemModstamp" r)
    | None => get_bookmark ∅ "Account" "SystemModstamp"
    end.
Proof.
  exact (proj1 (sync_records_cursor_bookmark e_c1 {| pk_chunking := false |}
                   (demo_entry (Some "SystemModstamp")) "SystemModstamp"
                   (mkWorld ∅ 0) 100 (VInt 5000) 6000 (mkWorld ∅ 2) c1_run.1.2 c1_run.2
                   eq_refl eq_refl ltac:(discriminate) ltac:(vm_compute; reflexivity)
                   ltac:(vm_compute; reflexivity))).
Defined.

(** ** Runs of any outcome *)

Lemma bind_run {A B} (m : M A) (f : A -> M B) w r w2 l :
  bind m f w = (r, w2, l) ->
  (exists e, r = inl e /\ m w = (inl e, w2, l)) \/
  (exists a w1 l1 l2, m w = (inr a, w1, l1) /\ f a w1 = (r, w2, l2) /\ l = l1 ++ l2).
Proof.
  unfold bind. destruct (m w) as [[[e|a] w1] l1].
  - intros H. injection H; intros; subst. left. eauto.
  - destruct (f a w1) as [[r' w2'] l2] eqn:Hf. intros H. injection H; intros; subst.
    right. eauto 10.
Qed.

Section RunsIn.
Variable P : world -> world -> list event -> Prop.
Hypothesis P_refl : forall w, P w w [].
Hypothesis P_trans : forall w1 w2 w3 l1 l2, P w1 w2 l1 -> P w2 w3 l2 -> P w1 w3 (l1 ++ l2).

Lemma runs_in_bind {A B} (m : M A) (f : A -> M B) :
  runs_in P m -> (forall a, runs_in P (f a)) -> runs_in P (bind m f).
Proof.
  intros Hm Hf w r w' l H. apply bind_run in H as [(e & -> & H) | (a & w1 & l1 & l2 & H1 & H2 & ->)].
  - eapply Hm; eauto.
  - eapply P_trans; [eapply Hm; eauto | eapply Hf; eauto].
Qed.

Lemma runs_in_ret {A} (a : A) : runs_in P (ret a).
Proof. intros w r w' l H. unfold ret in H. injection H; intros; subst. apply P_refl. Qed.

Lemma runs_in_throw {A} (e : exc) : runs_in P (@throw A e).
Proof. intros w r w' l H. unfold throw in H. injection H; intros; subst. apply P_refl. Qed.

Lemma runs_in_lift {A} (x : exc + A) : runs_in P (lift x).
Proof. destruct x; [apply runs_in_throw | apply runs_in_ret]. Qed.

Lemma runs_in_get_state : runs_in P get_state.
Proof. intros w r w' l H. unfold get_state in H. injection H; intros; subst. apply P_refl. Qed.

Lemma runs_in_foldM {A B} (f : B -> A -> M B) (xs : list A) :
  (forall acc x, runs_in P (f acc x)) -> forall acc, runs_in P (foldM f acc xs).
Proof.
  intros Hf. induction xs as [|x xs IH]; intros acc; simpl.
  - apply runs_in_ret.
  - apply runs_in_bind; [apply Hf | intros; apply IH].
Qed.
End RunsIn.

Lemma frame_refl sid ks w : frame sid ks w w.
Proof. done. Qed.

Lemma frame_trans sid ks w1 w2 w3 :
  frame sid ks w1 w2 -> frame sid ks w2 w3 -> frame sid ks w1 w3.
Proof. intros H1 H2 s k Hn. rewrite H2, H1; done. Qed.

Lemma frame_write sid ks key v w :
  key ∈ ks ->
  frame sid ks w (mkWorld (write_bookmark_map (w_state w) sid key v) (w_ticks w)).
Proof.
  intros Hk s k' Hn. simpl. unfold get_bookmark, write_bookmark_map.
  destruct (decide (s = sid)) as [->|Hs].
  - rewrite lookup_insert_eq. simpl. rewrite lookup_insert_ne.
    + by destruct (w_state w !! sid).
    + intros ->. apply Hn. done.
  - by rewrite lookup_insert_ne by congruence.
Qed.

Lemma chunk_log_app sid l1 l2 :
  chunk_log sid l1 -> chunk_log sid l2 -> chunk_log sid (l1 ++ l2).
Proof.
  induction 1; simpl; intros; [done| apply chunk_log_record | apply chunk_log_watermark]; auto.
Qed.

Lemma chunk_run_refl sid w : chunk_run sid w w [].
Proof. split; [apply frame_refl | constructor]. Qed.

Lemma chunk_run_trans sid w1 w2 w3 l1 l2 :
  chunk_run sid w1 w2 l1 -> chunk_run sid w2 w3 l2 -> chunk_run sid w1 w3 (l1 ++ l2).
Proof.
  intros [F1 C1] [F2 C2]. split; [eapply frame_trans; eauto | by apply chunk_log_app].
Qed.

Ltac chunk_bind := apply (runs_in_bind _ (chunk_run_trans _)).
Ltac chunk_leaf :=
  first [ apply (runs_in_ret _ (chunk_run_refl _))
        | apply (runs_in_lift _ (chunk_run_refl _))
        | apply (runs_in_throw _ (chunk_run_refl _))
        | apply (runs_in_get_state _ (chunk_run_refl _)) ].

Lemma process_record_chunk_run env ce sv start raw :
  runs_in (chunk_run (tap_stream_id ce)) (process_record env ce sv start raw).
Proof.
  unfold process_record. chunk_bind; [chunk_leaf|intros rec].
  chunk_bind; [chunk_leaf|intros rec'].
  chunk_bind; [|intros _; chunk_leaf].
  intros w r w' l H. unfold emit in H. injection H; intros; subst.
  split; [apply frame_refl | repeat constructor].
Qed.

Lemma replication_key_value_chunk_run env ce rec :
  runs_in (chunk_run (tap_stream_id ce)) (replication_key_value env ce rec).
Proof.
  unfold replication_key_value. destruct (replication_key ce); [|chunk_leaf].
  destruct (rk_truthy _); [|chunk_leaf].
  chunk_bind; [chunk_leaf|intros v]. chunk_bind; [chunk_leaf|intros t]. chunk_leaf.
Qed.

Lemma watermark_write_chunk_run sid v (cb : Z) :
  runs_in (chunk_run sid)
    (write_bookmark sid "JobHighestBookmarkSeen" v ;;; write_state ;;; ret cb).
Proof.
  intros w r w' l H. unfold bind, write_bookmark, write_state, ret in H.
  injection H; intros; subst. simpl. split.
  - apply frame_write. by left.
  - constructor; [apply get_bookmark_write|constructor].
Qed.

(** Every run of one record of a chunked pass, whatever its outcome. *)
Lemma sync_step_chunk_run env sf ce sv start cb raw :
  pk_chunking sf = true ->
  runs_in (chunk_run (tap_stream_id ce)) (sync_records_step env sf ce sv start cb raw).
Proof.
  intros Hpk. unfold sync_records_step. rewrite Hpk.
  chunk_bind; [apply process_record_chunk_run|intros rec].
  chunk_bind; [apply replication_key_value_chunk_run|intros rkv].
  destruct rkv as [t|]; [|chunk_leaf].
  destruct (_ && _); [|chunk_leaf].
  chunk_bind; [chunk_leaf|intros v]. chunk_bind; [chunk_leaf|intros cb'].
  apply watermark_write_chunk_run.
Qed.

Lemma frame_weaken sid ks1 ks2 w w' :
  frame sid ks1 w w' -> (forall k, k ∈ ks1 -> k ∈ ks2) -> frame sid ks2 w w'.
Proof. intros H Hs s k Hn. apply H. intros [-> Hk]. apply Hn. split; auto. Qed.

Lemma read_clock_chunk_run env sid : runs_in (chunk_run sid) (read_clock env).
Proof.
  intros w r w' l H. unfold read_clock in H. injection H; intros; subst.
  split; [intros ???; done | constructor].
Qed.

Lemma get_stream_version_chunk_run env ce sid :
  runs_in (chunk_run sid) (get_stream_version env ce).
Proof.
  unfold get_stream_version. chunk_bind; [chunk_leaf|intros st].
  chunk_bind.
  - destruct (truthy _); [chunk_leaf|].
    chunk_bind; [apply read_clock_chunk_run|intros; chunk_leaf].
  - intros v. destruct (rk_truthy _); [chunk_leaf|].
    chunk_bind; [apply read_clock_chunk_run|intros; chunk_leaf].
Qed.

Lemma sync_records_init_chunk_run env ce sid :
  runs_in (chunk_run sid) (sync_records_init env ce).
Proof.
  unfold sync_records_init. chunk_bind; [chunk_leaf|intros st].
  chunk_bind; [chunk_leaf|intros cb]. chunk_bind; [apply get_stream_version_chunk_run|intros sv].
  chunk_bind; [apply read_clock_chunk_run|intros; chunk_leaf].
Qed.

(** The end of a chunked pass: the promotion [singer_utils.strptime] of the
    datetime [chunked_bookmark] always raises a TypeError. *)
Lemma sync_records_end_chunked env sf ce sv cb w r w' l :
  pk_chunking sf = true ->
  sync_records_end env sf ce sv cb w = (r, w', l) ->
  (exists e, r = inl e /\ exc_kind_of e = KTypeError) /\
  frame (tap_stream_id ce) ["version"] w w' /\
  (l = [] \/
   l = [EvActivateVersion (message_stream ce) sv;
        EvWriteBookmark (tap_stream_id ce) "version" VNone]).
Proof.
  intros Hpk H. unfold sync_records_end in H. rewrite Hpk in H.
  destruct (negb (rk_truthy (replication_key ce))).
  - unfold bind, emit, write_bookmark, lift, strptime, raise_, throw in H. simpl in H.
    injection H; intros; subst. split; [|split].
    + eexists. split; [reflexivity|done].
    + apply frame_write. by left.
    + by right.
  - unfold bind, ret, lift, strptime, raise_, throw in H. simpl in H.
    injection H; intros; subst. split; [|split].
    + eexists. split; [reflexivity|done].
    + apply frame_refl.
    + by left.
Qed.

(** A whole chunked pass of [sync_records], whatever its outcome. *)
Lemma sync_records_chunked_run env sf ce w r w' l :
  pk_chunking sf = true ->
  sync_records env sf ce w = (r, w', l) ->
  (exists e, r = inl e) /\
  frame (tap_stream_id ce) ["JobHighestBookmarkSeen"; "version"] w w' /\
  exists l_mid l_end sv,
    l = l_mid ++ l_end /\ chunk_log (tap_stream_id ce) l_mid /\
    (l_end = [] \/
     l_end = [EvActivateVersion (message_stream ce) sv;
              EvWriteBookmark (tap_stream_id ce) "version" VNone]).
Proof.
  intros Hpk H.
  assert (Hw : forall k, k ∈ ["JobHighestBookmarkSeen"] -> k ∈ ["JobHighestBookmarkSeen"; "version"]).
  { intros k Hk. apply list_elem_of_singleton in Hk as ->. by left. }
  unfold sync_records in H.
  apply bind_run in H as [(e & -> & Hi) | (init & w1 & l1 & l2 & Hi & H & ->)].
  { apply (sync_records_init_chunk_run env ce (tap_stream_id ce)) in Hi as [F C].
    split; [eauto|]. split; [eapply frame_weaken; eauto|].
    exists l, [], VNone. rewrite app_nil_r. auto. }
  apply (sync_records_init_chunk_run env ce (tap_stream_id ce)) in Hi as [F1 C1].
  destruct init as [[cb sv] start].
  apply bind_run in H as [(e & -> & Hg) | (st & w2 & l3 & l4 & Hg & H & ->)].
  { unfold get_state in Hg. discriminate. }
  apply get_state_inr in Hg as (-> & -> & ->).
  destruct (query env ce (w_state w1)) as [recs qerr].
  assert (Hloop : runs_in (chunk_run (tap_stream_id ce))
                    (foldM (sync_records_step env sf ce sv start) cb recs)).
  { apply (runs_in_foldM _ (chunk_run_refl _) (chunk_run_trans _)).
    intros acc x. by apply sync_step_chunk_run. }
  apply bind_run in H as [(e & -> & Hf) | (cb' & w3 & l5 & l6 & Hf & H & ->)].
  { apply Hloop in Hf as [F2 C2]. split; [eauto|]. split.
    - eapply frame_weaken; [eapply frame_trans; eauto|done].
    - exists (l1 ++ [] ++ l4), [], sv. rewrite app_nil_r. split; [done|].
      split; [|auto]. apply chunk_log_app; [done|]. simpl. done. }
  apply Hloop in Hf as [F2 C2].
  destruct qerr as [e|].
  - unfold throw in H. injection H; intros; subst. split; [eauto|]. split.
    + eapply frame_weaken; [eapply frame_trans; eauto|done].
    + exists (l1 ++ [] ++ l5), [], sv. rewrite !app_nil_r. split; [done|].
      split; [|auto]. apply chunk_log_app; [done|]. simpl. done.
  - apply sync_records_end_chunked in H as ([e [-> _]] & F3 & Hl); [|done].
    split; [eauto|]. split.
    + apply (frame_trans _ _ w w3 w'); [apply (frame_trans _ _ w w1 w3)|].
      * eapply frame_weaken; [exact F1|exact Hw].
      * eapply frame_weaken; [exact F2|exact Hw].
      * eapply frame_weaken; [exact F3|].
        intros k Hk. apply list_elem_of_singleton in Hk as ->. right. left.
    + exists (l1 ++ l5), l6, sv. split; [simpl; by rewrite app_assoc|].
      split; [by apply chunk_log_app|done].
Qed.

(** One record of a chunked keyed pass: the high-watermark advances exactly
    when the record's instant lies after it and at or before the pass
    start, and every advance is written and flushed at once. *)
Lemma sync_step_chunked env sf ce k sv start cb raw w cb' w' l :
  pk_chunking sf = true -> replication_key ce = Some k -> k <> "" ->
  sync_records_step env sf ce sv start cb raw w = (inr cb', w', l) ->
  exists rec,
    (cb' = cb /\ w_state w' = w_state w /\
     l = [EvRecord (message_stream ce) rec sv start] /\
     ~ (exists t, rk_instant env k rec = Some t /\ cb < t <= start)) \/
    (cb < cb' <= start /\ rk_instant env k rec = Some cb' /\
     l = [EvRecord (message_stream ce) rec sv start;
          EvWriteBookmark (tap_stream_id ce) "JobHighestBookmarkSeen" (strftime env cb');
          EvWriteState (w_state w')] /\
     get_bookmark (w_state w') (tap_stream_id ce) "JobHighestBookmarkSeen"
       = strftime env cb').
Proof.
  intros Hpk Hk Hne H.
  assert (Ht : rk_truthy (Some k) = true).
  { simpl. destruct (String.eqb_spec k ""); done. }
  unfold sync_records_step in H. rewrite Hpk in H.
  inv_bind H Hp H1. apply process_record_inr in Hp as [-> ->].
  inv_bind H1 Hr H2.
  apply (replication_key_value_inr _ _ k) in Hr as (-> & -> & v & t & Hv & Htv & -> & Hi);
    [|done|done].
  exists a. unfold rk_key in H2. rewrite Hk in H2.
  destruct ((t <=? start) && (cb <? t)) eqn:Hc.
  - apply andb_true_iff in Hc as [H1' H2']. apply Z.leb_le in H1'. apply Z.ltb_lt in H2'.
    inv_bind H2 Hg H3. inv_lift Hg. rewrite Hv in E. injection E as <-.
    inv_bind H3 Hs H4. inv_lift Hs. rewrite Htv in E. injection E as <-.
    unfold bind, write_bookmark, write_state, ret in H4. simpl in H4.
    injection H4; intros; subst. right. simpl. repeat split; try lia; try done.
    apply get_bookmark_write.
  - inv_ret H2. left. repeat split; try done.
    intros (t' & Ht' & Hlt1 & Hlt2). rewrite Hi in Ht'. injection Ht' as <-.
    apply andb_false_iff in Hc as [Hc|Hc]; [apply Z.leb_gt in Hc|apply Z.ltb_ge in Hc]; lia.
Qed.

(** ** C3 and C4: chunked passes *)

(** C4. In a chunked pass ([sf.pk_chunking] set), (1) for every run of
    [sync_records], whatever its outcome, the log is the record loop's log
    followed by at most the end-of-pass version rotation; during the loop
    the only bookmark written is "JobHighestBookmarkSeen", each write
    immediately followed by a flush of a state that holds it; and the run
    changes no bookmark but "JobHighestBookmarkSeen" and "version" of its
    stream, so the cursor field is never written; (2) on each record the
    high-watermark advances exactly when the record's instant is after it
    and at or before the pass start, and every advance is written and
    flushed at once. *)
Theorem chunked_pass_writes_only_watermark env sf ce :
  pk_chunking sf = true ->
  (forall w r w' l,
     sync_records env sf ce w = (r, w', l) ->
     frame (tap_stream_id ce) ["JobHighestBookmarkSeen"; "version"] w w' /\
     exists l_mid l_end sv,
       l = l_mid ++ l_end /\ chunk_log (tap_stream_id ce) l_mid /\
       (l_end = [] \/
        l_end = [EvActivateVersion (message_stream ce) sv;
                 EvWriteBookmark (tap_stream_id ce) "version" VNone])) /\
  (forall k sv start cb raw w cb' w' l,
     replication_key ce = Some k -> k <> "" ->
     sync_records_step env sf ce sv start cb raw w = (inr cb', w', l) ->
     exists rec,
       (cb' = cb /\ w_state w' = w_state w /\
        l = [EvRecord (message_stream ce) rec sv start] /\
        ~ (exists t, rk_instant env k rec = Some t /\ cb < t <= start)) \/
       (cb < cb' <= start /\ rk_instant env k rec = Some cb' /\
        l = [EvRecord (message_stream ce) rec sv start;
             EvWriteBookmark (tap_stream_id ce) "JobHighestBookmarkSeen" (strftime env cb');
             EvWriteState (w_state w')] /\
        get_bookmark (w_state w') (tap_stream_id ce) "JobHighestBookmarkSeen"
          = strftime env cb')).
Proof.
  intros Hpk. split.
  - intros w r w' l H. apply sync_records_chunked_run in H as (_ & F & Hl); done.
  - intros k sv start cb raw w cb' w' l Hk Hne H. eapply sync_step_chunked; eauto.
Qed.

Lemma chunked_pass_writes_only_watermark_witness :
  frame "Account" ["JobHighestBookmarkSeen"; "version"] (mkWorld ∅ 0)
    (run (sync_records e_c1 {| pk_chunking := true |} (demo_entry (Some "SystemModstamp"))) ∅).1.2.
Proof.
  exact (proj1 (proj1 (chunked_pass_writes_only_watermark e_c1 {| pk_chunking := true |}
                         (demo_entry (Some "SystemModstamp")) eq_refl)
                  (mkWorld ∅ 0) _ _ _ eq_refl)).
Defined.

(** C3 (code_bug). Every chunked pass of [sync_records] ends in an
    exception, and the cursor bookmark under the replication key is left as
    it was: the end-of-pass promotion applies [singer_utils.strptime] (text
    to datetime) to the datetime [chunked_bookmark], which raises a
    TypeError before [write_bookmark] runs. *)
Theorem chunked_pass_never_promotes env sf ce k w r w' l :
  pk_chunking sf = true -> replication_key ce = Some k ->
  k <> "JobHighestBookmarkSeen" -> k <> "version" ->
  sync_records env sf ce w = (r, w', l) ->
  (exists e, r = inl e) /\
  get_bookmark (w_state w') (tap_stream_id ce) k =
    get_bookmark (w_state w) (tap_stream_id ce) k.
Proof.
  intros Hpk Hk H1 H2 H. apply sync_records_chunked_run in H as (Hr & F & _); [|done].
  split; [done|]. apply F. intros [_ Hin].
  apply elem_of_cons in Hin as [->|Hin]; [done|].
  apply list_elem_of_singleton in Hin as ->. done.
Qed.

Lemma chunked_pass_never_promotes_witness :
  (exists e, (run (sync_records e_c1 {| pk_chunking := true |}
                     (demo_entry (Some "SystemModstamp"))) ∅).1.1 = inl e) /\
  get_bookmark (w_state (run (sync_records e_c1 {| pk_chunking := true |}
                     (demo_entry (Some "SystemModstamp"))) ∅).1.2)
    "Account" "SystemModstamp" = get_bookmark ∅ "Account" "SystemModstamp".
Proof.
  exact (chunked_pass_never_promotes e_c1 {| pk_chunking := true |}
           (demo_entry (Some "SystemModstamp")) "SystemModstamp" (mkWorld ∅ 0) _ _ _
           eq_refl eq_refl ltac:(discriminate) ltac:(discriminate) eq_refl).
Defined.

(** The failing input of C3, evaluated: records at 300 and 200 before the
    pass start; the watermark reaches "300" mid-pass, the pass raises a
    TypeError at its end and no cursor bookmark is ever written. *)
Example chunked_pass_sample :
  match run (sync_records e_c1 {| pk_chunking := true |}
               (demo_entry (Some "SystemModstamp"))) ∅ with
  | (inl e, w', _) =>
      exc_kind_of e = KTypeError /\
      get_bookmark (w_state w') "Account" "JobHighestBookmarkSeen" = VStr "300" /\
      get_bookmark (w_state w') "Account" "SystemModstamp" = VNone
  | _ => False
  end.
Proof. vm_compute. repeat split. Qed.

(** ** C6 and C5: stream versions *)

(** C6 (amended). [get_stream_version] reads the clock once or twice and
    nothing else: with a replication key it returns the bookmarked
    "version" when that value is truthy (present and not None, 0 or empty)
    and the current clock reading in ms otherwise; without a replication key
    it returns a fresh clock reading (the second one when the bookmark is
    falsy). It raises nothing, writes nothing and emits nothing. *)
Theorem get_stream_version_spec env ce w :
  let bm := get_bookmark (w_state w) (tap_stream_id ce) "version" in
  get_stream_version env ce w =
    if rk_truthy (replication_key ce) then
      if truthy bm then (inr bm, w, [])
      else (inr (VInt (clock_ms env (w_ticks w))), mkWorld (w_state w) (S (w_ticks w)), [])
    else
      if truthy bm then
        (inr (VInt (clock_ms env (w_ticks w))), mkWorld (w_state w) (S (w_ticks w)), [])
      else
        (inr (VInt (clock_ms env (S (w_ticks w)))),
         mkWorld (w_state w) (S (S (w_ticks w))), []).
Proof.
  intros bm. unfold get_stream_version, bind, get_state, read_clock, ret. simpl.
  fold bm. destruct (truthy bm), (rk_truthy (replication_key ce)); simpl; destruct w; done.
Qed.

(** C6 (counterexample). A stream with a replication key whose bookmarked
    version is 0: the bookmark exists, yet a fresh clock value is returned. *)
Lemma get_stream_version_ignores_zero_version :
  get_bookmark (<["Account" := <["version" := VInt 0]> ∅]> ∅) "Account" "version" = VInt 0 /\
  (run (get_stream_version (e_clock 5000) (demo_entry (Some "SystemModstamp")))
       (<["Account" := <["version" := VInt 0]> ∅]> ∅)).1.1 = inr (VInt 5000).
Proof. split; reflexivity. Qed.

(** Without a replication key a loop step only emits the record. *)
Lemma sync_step_unkeyed env sf ce sv start cb raw w cb' w' l :
  rk_truthy (replication_key ce) = false ->
  sync_records_step env sf ce sv start cb raw w = (inr cb', w', l) ->
  cb' = cb /\ w' = w /\ exists rec, l = [EvRecord (message_stream ce) rec sv start].
Proof.
  intros Ht H. unfold sync_records_step in H. inv_bind H Hp H1.
  apply process_record_inr in Hp as [-> ->]. inv_bind H1 Hr H2.
  unfold replication_key_value in Hr.
  destruct (replication_key ce) as [k|]; [rewrite Ht in Hr|]; inv_ret Hr;
    destruct (pk_chunking sf); inv_ret H2; eauto.
Qed.

Lemma sync_loop_unkeyed env sf ce sv start recs cb w cb' w' l :
  rk_truthy (replication_key ce) = false ->
  foldM (sync_records_step env sf ce sv start) cb recs w = (inr cb', w', l) ->
  w' = w /\ Forall (fun ev => exists rec, ev = EvRecord (message_stream ce) rec sv start) l.
Proof.
  intros Ht. revert cb w l. induction recs as [|raw recs IH]; intros cb w l H.
  - inv_ret H. done.
  - apply foldM_inr in H as (cb1 & w1 & l1 & l2 & H1 & H2 & ->).
    apply (sync_step_unkeyed _ _ _ _ _ _ _ _ _ _ _ Ht) in H1 as (-> & -> & rec & ->).
    apply IH in H2 as [-> Hf]. split; [done|]. constructor; eauto.
Qed.

Lemma sync_records_end_unkeyed env sf ce sv cb w w' l :
  rk_truthy (replication_key ce) = false -> pk_chunking sf = false ->
  sync_records_end env sf ce sv cb w = (inr tt, w', l) ->
  l = [EvActivateVersion (message_stream ce) sv;
       EvWriteBookmark (tap_stream_id ce) "version" VNone] /\
  w' = mkWorld (write_bookmark_map (w_state w) (tap_stream_id ce) "version" VNone)
               (w_ticks w).
Proof.
  intros Ht Hpk H. unfold sync_records_end in H. rewrite Ht, Hpk in H. simpl in H.
  inv_bind H H1 H2. inv_ret H2. inv_bind H1 He H3. unfold emit in He.
  injection He; intros; subst. unfold write_bookmark in H3.
  injection H3; intros; subst. done.
Qed.

(** Without a replication key the version of a pass is a clock reading taken
    while the pass is set up. *)
Lemma sync_records_init_unkeyed env ce w cb sv start w1 l :
  rk_truthy (replication_key ce) = false ->
  sync_records_init env ce w = (inr (cb, sv, start), w1, l) ->
  exists n, sv = VInt (clock_ms env n) /\ (w_ticks w <= n < w_ticks w1)%nat.
Proof.
  intros Ht H. unfold sync_records_init in H. inv_bind H Hg H1. inv_get Hg.
  inv_bind H1 Hp H2. inv_lift Hp. inv_bind H2 Hv H3.
  match type of Hv with get_stream_version _ _ ?w0 = _ =>
    pose proof (get_stream_version_spec env ce w0) as Hs end. cbn zeta in Hs.
  rewrite Hs, Ht in Hv. inv_bind H3 Hc H4. inv_clock Hc. inv_ret H4.
  destruct (truthy _); injection Hv; intros; subst; injection E0; intros; subst; simpl;
    eexists; (split; [reflexivity|lia]).
Qed.

(** A whole unkeyed, unchunked pass that completes. *)
Lemma sync_records_unkeyed env sf ce w w' l :
  rk_truthy (replication_key ce) = false -> pk_chunking sf = false ->
  sync_records env sf ce w = (inr tt, w', l) ->
  exists n lrec,
    (w_ticks w <= n < w_ticks w')%nat /\
    l = lrec ++ [EvActivateVersion (message_stream ce) (VInt (clock_ms env n));
                 EvWriteBookmark (tap_stream_id ce) "version" VNone] /\
    Forall (fun ev => exists rec t,
              ev = EvRecord (message_stream ce) rec (VInt (clock_ms env n)) t) lrec /\
    get_bookmark (w_state w') (tap_stream_id ce) "version" = VNone.
Proof.
  intros Ht Hpk H.
  apply sync_records_inr in H as (cb & sv & start & w1 & recs & cb' & w2 & l2 & l3 &
                                  Hi & _ & _ & Hf & He & ->).
  apply sync_records_init_unkeyed in Hi as (n & -> & Hn); [|done].
  apply sync_loop_unkeyed in Hf as [-> Hf]; [|done].
  apply sync_records_end_unkeyed in He as [-> ->]; [|done..].
  exists n, l2. simpl. split; [lia|]. split; [done|]. split.
  - eapply Forall_impl; [exact Hf|]. intros ev [rec ->]. eauto.
  - apply get_bookmark_write.
Qed.

(** C5 (amended). Two consecutive completed passes over a stream with no
    replication key (chunking off): each log ends with the activate-version
    message carrying the version every record of that pass is tagged with,
    followed by the write of None to the "version" bookmark, which is None
    after each pass. Each pass's version is the clock reading at some tick
    n1 < n2, so the two versions differ whenever the clock's readings
    strictly increase; the code itself does not ensure that they do. *)
Theorem unkeyed_passes_version_rotation env sf ce w w1 w2 l1 l2 :
  rk_truthy (replication_key ce) = false -> pk_chunking sf = false ->
  sync_records env sf ce w = (inr tt, w1, l1) ->
  sync_records env sf ce w1 = (inr tt, w2, l2) ->
  exists n1 n2 r1 r2,
    (n1 < n2)%nat /\
    l1 = r1 ++ [EvActivateVersion (message_stream ce) (VInt (clock_ms env n1));
                EvWriteBookmark (tap_stream_id ce) "version" VNone] /\
    l2 = r2 ++ [EvActivateVersion (message_stream ce) (VInt (clock_ms env n2));
                EvWriteBookmark (tap_stream_id ce) "version" VNone] /\
    Forall (fun ev => exists rec t,
              ev = EvRecord (message_stream ce) rec (VInt (clock_ms env n1)) t) r1 /\
    Forall (fun ev => exists rec t,
              ev = EvRecord (message_stream ce) rec (VInt (clock_ms env n2)) t) r2 /\
    get_bookmark (w_state w1) (tap_stream_id ce) "version" = VNone /\
    get_bookmark (w_state w2) (tap_stream_id ce) "version" = VNone /\
    ((forall a b, (a < b)%nat -> clock_ms env a < clock_ms env b) ->
     VInt (clock_ms env n1) <> VInt (clock_ms env n2)).
Proof.
  intros Ht Hpk H1 H2.
  apply sync_records_unkeyed in H1 as (n1 & r1 & Hn1 & -> & Hr1 & Hv1); [|done..].
  apply sync_records_unkeyed in H2 as (n2 & r2 & Hn2 & -> & Hr2 & Hv2); [|done..].
  exists n1, n2, r1, r2. assert (Hlt : (n1 < n2)%nat) by lia.
  repeat split; try done.
  intros Hmono Heq. injection Heq. specialize (Hmono _ _ Hlt). lia.
Qed.

Lemma unkeyed_passes_version_rotation_witness :
  let e := demo_env 5000 "100" [demo_rec "a" 300] [] in
  let ce := demo_entry None in
  let sf := {| pk_chunking := false |} in
  let w1 := (run (sync_records e sf ce) ∅).1.2 in
  exists n1 n2 r1 r2,
    (n1 < n2)%nat /\
    (run (sync_records e sf ce) ∅).2 =
      r1 ++ [EvActivateVersion "Account" (VInt (clock_ms e n1));
             EvWriteBookmark "Account" "version" VNone] /\
    (sync_records e sf ce w1).2 =
      r2 ++ [EvActivateVersion "Account" (VInt (clock_ms e n2));
             EvWriteBookmark "Account" "version" VNone] /\
    Forall (fun ev => exists rec t,
              ev = EvRecord "Account" rec (VInt (clock_ms e n1)) t) r1 /\
    Forall (fun ev => exists rec t,
              ev = EvRecord "Account" rec (VInt (clock_ms e n2)) t) r2 /\
    get_bookmark (w_state w1) "Account" "version" = VNone /\
    get_bookmark (w_state (sync_records e sf ce w1).1.2) "Account" "version" = VNone /\
    ((forall a b, (a < b)%nat -> clock_ms e a < clock_ms e b) ->
     VInt (clock_ms e n1) <> VInt (clock_ms e n2)).
Proof.
  intros e ce sf w1.
  refine (unkeyed_passes_version_rotation e sf ce (mkWorld ∅ 0) w1
            (sync_records e sf ce w1).1.2
            (run (sync_records e sf ce) ∅).2 (sync_records e sf ce w1).2
            eq_refl eq_refl _ _).
  - vm_compute. reflexivity.
  - vm_compute. reflexivity.
Defined.

(** C5 (counterexample). Two consecutive passes over an unkeyed stream
    whose clock readings coincide are tagged with the same version 5000. *)
Lemma unkeyed_passes_same_version :
  let sf := {| pk_chunking := false |} in
  let ce := demo_entry None in
  let p1 := run (sync_records e_stuck_clock sf ce) ∅ in
  let p2 := sync_records e_stuck_clock sf ce p1.1.2 in
  p1.1.1 = inr tt /\ p2.1.1 = inr tt /\
  p1.2 = [EvRecord "Account" (demo_rec "a" 300) (VInt 5000) 5000;
          EvActivateVersion "Account" (VInt 5000);
          EvWriteBookmark "Account" "version" VNone] /\
  p2.2 = p1.2.
Proof. vm_compute. repeat split. Qed.

(** ** C9: the error handling of [sync_stream] *)

(** C9 (amended). When the pass inside [sync_stream] (the records pass and
    the flush) raises [ex], [sync_stream] raises, keeping the messages and
    state mutations made before the failure: for a TapSalesforce error, an
    error of the same class whose message names the stream and carries
    [str(ex)], with [ex] as its implicit context; for any other subclass of
    Exception, a generic Exception naming the stream, with [ex] as its cause;
    for a BaseException outside Exception (KeyboardInterrupt, SystemExit,
    ...), [ex] itself, unwrapped. *)
Theorem sync_stream_reraise env sf ce w ex w1 l1 :
  (sync_records env sf ce ;;; write_state) w = (inl ex, w1, l1) ->
  exists e', sync_stream env sf ce w = (inl e', w1, l1) /\
    (forall cls, exc_kind_of ex = KTapSalesforce cls ->
       exc_kind_of e' = KTapSalesforce cls /\
       exc_msg e' = ("Error syncing " ++ stream ce ++ ": " ++ exc_str ex)%string /\
       exc_context e' = Some ex) /\
    ((forall cls, exc_kind_of ex <> KTapSalesforce cls) ->
     (forall cls, exc_kind_of ex <> KBaseOnly cls) ->
       exc_kind_of e' = KException "Exception" /\
       exc_msg e' = ("Unexpected error syncing " ++ stream ce ++ ": " ++ exc_str ex)%string /\
       exc_cause e' = Some ex) /\
    (forall cls, exc_kind_of ex = KBaseOnly cls -> e' = ex).
Proof.
  intros H. unfold sync_stream, try_except. rewrite H.
  destruct ex as [k m c x]; simpl.
  destruct k; simpl; unfold throw; rewrite ?app_nil_r;
    (eexists; split; [reflexivity|]); simpl.
  all: split; [intros ? Hk | split; [intros Hn1 Hn2 | intros ? Hk]].
  all: try discriminate Hk.
  all: try (injection Hk; intros; subst).
  all: try (exfalso; eapply Hn1; reflexivity).
  all: try (exfalso; eapply Hn2; reflexivity).
  all: repeat split.
Qed.

Lemma sync_stream_reraise_witness :
  let e := e_failing quota_error in
  let sf := {| pk_chunking := false |} in
  let ce := demo_entry (Some "SystemModstamp") in
  let p := run (sync_records e sf ce ;;; write_state) ∅ in
  exists e', sync_stream e sf ce (mkWorld ∅ 0) = (inl e', p.1.2, p.2) /\
    (forall cls, exc_kind_of quota_error = KTapSalesforce cls ->
       exc_kind_of e' = KTapSalesforce cls /\
       exc_msg e' = ("Error syncing " ++ stream ce ++ ": " ++ exc_str quota_error)%string /\
       exc_context e' = Some quota_error) /\
    ((forall cls, exc_kind_of quota_error <> KTapSalesforce cls) ->
     (forall cls, exc_kind_of quota_error <> KBaseOnly cls) ->
       exc_kind_of e' = KException "Exception" /\
       exc_msg e' = ("Unexpected error syncing " ++ stream ce ++ ": " ++ exc_str quota_error)%string /\
       exc_cause e' = Some quota_error) /\
    (forall cls, exc_kind_of quota_error = KBaseOnly cls -> e' = quota_error).
Proof.
  intros e sf ce p.
  assert (Hp : (sync_records e sf ce ;;; write_state) (mkWorld ∅ 0) =
                (inl quota_error, p.1.2, p.2)) by (vm_compute; reflexivity).
  exact (sync_stream_reraise e sf ce (mkWorld ∅ 0) quota_error p.1.2 p.2 Hp).
Defined.

(** C9 (counterexample). A KeyboardInterrupt raised while the query engine
    is being read leaves [sync_stream] as it is: not wrapped into a generic
    failure, without the stream name and without a chained cause. *)
Lemma sync_stream_keyboard_interrupt_unwrapped :
  let ki := Exc (KBaseOnly "KeyboardInterrupt") "" None None in
  (run (sync_stream (e_failing ki) {| pk_chunking := false |}
          (demo_entry (Some "SystemModstamp"))) ∅).1.1 = inl ki.
Proof. vm_compute. reflexivity. Qed.

(** ** C2: resuming a bulk job batch by batch *)

Lemma batch_id_list_strs (ids : list string) :
  batch_id_list (VList (map VStr ids)) = inr ids.
Proof.
  unfold batch_id_list.
  match goal with |- context [omap ?f (map VStr ids)] =>
    assert (Hm : omap f (map VStr ids) = ids)
      by (induction ids as [|x ids IH]; [done|]; simpl; f_equal; exact IH) end.
  rewrite Hm, length_map, Nat.eqb_refl. done.
Qed.

Lemma remove_first_head (b : string) (ids : list string) :
  remove_first b (b :: ids) = Some ids.
Proof. simpl. by rewrite String.eqb_refl. Qed.

Lemma replication_key_value_pure env ce rec w o w' l :
  replication_key_value env ce rec w = (inr o, w', l) -> w' = w /\ l = [].
Proof.
  unfold replication_key_value. intros H.
  destruct (replication_key ce); [destruct (rk_truthy _)|]; [|inv_ret H; done..].
  inv_bind H H1 H2. inv_lift H1. inv_bind H2 H3 H4. inv_lift H3. inv_ret H4. done.
Qed.

Lemma resume_record_step_inr env ce sv start cur raw w cur' w' l :
  resume_record_step env ce sv start cur raw w = (inr cur', w', l) ->
  w' = w /\ exists rec, l = [EvRecord (message_stream ce) rec sv start].
Proof.
  unfold resume_record_step. intros H. inv_bind H Hp H1.
  apply process_record_inr in Hp as [-> ->]. inv_bind H1 Hr H2.
  apply replication_key_value_pure in Hr as [-> ->].
  destruct a0 as [t|]; [destruct (_ && _)|]; [|inv_ret H2; eauto..].
  inv_bind H2 H3 H4. inv_lift H3. inv_lift H4. eauto.
Qed.

Lemma resume_loop_inr env ce sv start recs cur w cur' w' l :
  foldM (resume_record_step env ce sv start) cur recs w = (inr cur', w', l) ->
  w' = w /\ Forall is_record_event l.
Proof.
  revert cur w l. induction recs as [|raw recs IH]; intros cur w l H.
  - inv_ret H. done.
  - apply foldM_inr in H as (c1 & w1 & l1 & l2 & H1 & H2 & ->).
    apply resume_record_step_inr in H1 as (-> & rec & ->).
    apply IH in H2 as [-> Hf]. split; [done|]. constructor; [red; eauto|done].
Qed.

(** One completed batch: its records, then the watermark write, the removal
    of the batch id and the flush, in this order; the flushed snapshot lists
    the remaining ids and holds the watermark. *)
Lemma resume_batch_inr env ce job sv start cur b rest w cur' w' l :
  get_bookmark (w_state w) (tap_stream_id ce) "BatchIDs" = VList (map VStr (b :: rest)) ->
  resume_batch env ce job sv start cur b w = (inr cur', w', l) ->
  exists rs,
    Forall is_record_event rs /\
    l = rs ++ [EvWriteBookmark (tap_stream_id ce) "JobHighestBookmarkSeen"
                 (strftime env cur');
               EvRemoveBatch b; EvWriteState (w_state w')] /\
    w_ticks w' = w_ticks w /\
    get_bookmark (w_state w') (tap_stream_id ce) "BatchIDs" = VList (map VStr rest) /\
    get_bookmark (w_state w') (tap_stream_id ce) "JobHighestBookmarkSeen" =
      strftime env cur' /\
    (forall sid' k, sid' <> tap_stream_id ce ->
       get_bookmark (w_state w') sid' k = get_bookmark (w_state w) sid' k).
Proof.
  intros Hb H. unfold resume_batch in H.
  destruct (get_batch_results env job b ce) as [recs err].
  inv_bind H Hf H1. apply resume_loop_inr in Hf as [-> Hf].
  destruct err as [e|]; [discriminate|].
  inv_bind H1 Hw H2. unfold write_bookmark in Hw. injection Hw; intros; subst.
  inv_bind H2 Hr H3. unfold remove_batch_id in Hr. inv_bind Hr Hg H4. inv_get Hg.
  inv_bind H4 Hl H5. inv_lift Hl. simpl in E.
  rewrite get_bookmark_write_ne in E by done. rewrite Hb, batch_id_list_strs in E.
  injection E; intros; subst. rewrite remove_first_head in H5.
  injection H5; intros; subst. inv_bind H3 Hs H6. unfold write_state in Hs.
  injection Hs; intros; subst. inv_ret H6. simpl.
  eexists. split; [exact Hf|]. split; [reflexivity|].
  split; [done|]. split; [apply get_bookmark_write|]. split.
  - rewrite get_bookmark_write_ne by done. apply get_bookmark_write.
  - intros sid' k Hne. unfold get_bookmark, write_bookmark_map.
    rewrite !lookup_insert_ne by congruence. done.
Qed.

Lemma resume_batches_inr env ce job sv start ids cur w cur' w' l :
  get_bookmark (w_state w) (tap_stream_id ce) "BatchIDs" = VList (map VStr ids) ->
  foldM (resume_batch env ce job sv start) cur ids w = (inr cur', w', l) ->
  resume_log env (tap_stream_id ce) ids l /\
  get_bookmark (w_state w') (tap_stream_id ce) "BatchIDs" = VList [].
Proof.
  revert cur w l. induction ids as [|b ids IH]; intros cur w l Hb H.
  - inv_ret H. split; [constructor|done].
  - apply foldM_inr in H as (c1 & w1 & l1 & l2 & H1 & H2 & ->).
    apply resume_batch_inr with (rest := ids) in H1
      as (rs & Hrs & -> & _ & Hb1 & Hj1 & _); [|done].
    apply IH in H2 as [Hl Hend]; [|done]. split; [|done].
    rewrite <- app_assoc. simpl. constructor; done.
Qed.

(** C2 (amended). A resumed job that completes, started from a state whose
    "BatchIDs" lists [ids], handles the batches in the order of [ids]; after
    each batch it writes the watermark to JobHighestBookmarkSeen, removes the
    batch id from the state's BatchIDs list and flushes, in that order; the
    snapshot flushed after a batch lists exactly the ids that follow it and
    holds the watermark, the ids listed shrink from flush to flush, and at
    the end BatchIDs is empty. A batch counts as completed once its flush is
    written: a re-invocation from that snapshot is handed only the later
    batches. *)
Theorem resume_flushes_shrinking_batch_ids env ce job ids w w' l :
  get_bookmark (w_state w) (tap_stream_id ce) "BatchIDs" = VList (map VStr ids) ->
  resume_syncing_bulk_query env ce job w = (inr tt, w', l) ->
  resume_log env (tap_stream_id ce) ids l /\
  get_bookmark (w_state w') (tap_stream_id ce) "BatchIDs" = VList [].
Proof.
  intros Hb H. unfold resume_syncing_bulk_query in H. inv_bind H Hg H1. inv_get Hg.
  inv_bind H1 Hp H2. inv_lift Hp. inv_bind H2 Hc H3. inv_clock Hc.
  inv_bind H3 Hv H4. apply get_stream_version_inr in Hv as [Hs ->].
  inv_bind H4 Hl H5. inv_lift Hl.
  match goal with Hi : batch_id_list _ = inr _ |- _ =>
    rewrite Hb, batch_id_list_strs in Hi; injection Hi; intros; subst end. inv_bind H5 Hf H6. inv_ret H6. rewrite app_nil_r.
  apply resume_batches_inr in Hf; [done|]. rewrite Hs. done.
Qed.

Lemma resume_flushes_shrinking_batch_ids_witness :
  get_bookmark (w_state (mkWorld c2_state 0)) "Account" "BatchIDs" =
    VList (map VStr ["b1"; "b2"]) /\
  resume_log e_c2 "Account" ["b1"; "b2"]
    (run (resume_syncing_bulk_query e_c2 (demo_entry (Some "SystemModstamp")) "j")
         c2_state).2.
Proof.
  split; [reflexivity|].
  exact (proj1 (resume_flushes_shrinking_batch_ids e_c2
                  (demo_entry (Some "SystemModstamp")) "j" ["b1"; "b2"]
                  (mkWorld c2_state 0) _ _ eq_refl
                  ltac:(vm_compute; reflexivity))).
Defined.

(** C2 (counterexample). Batch b1 is fully drained (its one record is
    emitted) and its watermark written, and the process dies before the
    flush that follows. The persisted store still lists b1 and has no
    watermark, and a re-invocation from it drains b1 again and re-emits its
    record. *)
Lemma resume_crash_redrains_batch :
  let ce := demo_entry (Some "SystemModstamp") in
  let full := run (resume_syncing_bulk_query e_c2 ce "j") c2_state in
  let crash := take 2 full.2 in
  let st := persisted_after c2_state crash in
  let rerun := run (resume_syncing_bulk_query e_c2 ce "j") st in
  full.1.1 = inr tt /\
  emitted_records crash = [demo_rec "a" 300] /\
  drop 1 crash = [EvWriteBookmark "Account" "JobHighestBookmarkSeen" (VStr "300")] /\
  flushed_states crash = [] /\
  get_bookmark st "Account" "BatchIDs" = VList [VStr "b1"; VStr "b2"] /\
  get_bookmark st "Account" "JobHighestBookmarkSeen" = VNone /\
  rerun.1.1 = inr tt /\
  emitted_records rerun.2 = [demo_rec "a" 300; demo_rec "b" 400].
Proof. vm_compute. repeat split. Qed.

(** * Further properties of the embedded code *)

(** ** Record post-processing *)

(** The pre-hook on a dict: the entries under "attributes" are dropped, all
    others kept in their order, whatever the field schema (even one without
    a "type"). *)
Theorem transform_bulk_data_hook_dict (d : list (string * pyval)) typ schema :
  transform_bulk_data_hook (VDict d) typ schema = inr (VDict (remove_blacklisted_fields d)) /\
  (forall k v, (k, v) ∈ remove_blacklisted_fields d <-> (k, v) ∈ d /\ k <> "attributes") /\
  remove_blacklisted_fields d `sublist_of` d.
Proof.
  split; [reflexivity|]. split; [|apply sublist_filter].
  intros k v. unfold remove_blacklisted_fields.
  rewrite list_elem_of_filter. simpl.
  destruct (String.eqb_spec k "attributes") as [->|Hne]; simpl.
  - split; [intros [[] _]|intros [_ []]; done].
  - split; [intros [_ H]; done|intros [H _]; done].
Qed.

(** The pre-hook on a value that is not a dict: the empty string becomes
    None exactly when the field schema's "type" list names "null", and
    stays "" when it does not; a field schema without "type" makes it raise
    a KeyError; any other value is returned as it is, without reading the
    schema. *)
Theorem transform_bulk_data_hook_scalar typ (items : list (string * pyval)) :
  (forall l, dict_lookup items "type" = Some (VList l) ->
     transform_bulk_data_hook (VStr "") typ (VDict items) =
       inr (if existsb (fun x => py_eq_str x "null") l then VNone else VStr "")) /\
  (dict_lookup items "type" = None ->
     exists e, transform_bulk_data_hook (VStr "") typ (VDict items) = inl e /\
               exc_kind_of e = KKeyError) /\
  (forall v schema, v <> VStr "" -> (forall d, v <> VDict d) ->
     transform_bulk_data_hook v typ schema = inr v).
Proof.
  split; [|split].
  - intros l Hl. unfold transform_bulk_data_hook. simpl. rewrite Hl. simpl.
    by destruct (existsb _ l).
  - intros Hn. unfold transform_bulk_data_hook. simpl. rewrite Hn. eauto.
  - intros v schema Hv Hd. unfold transform_bulk_data_hook.
    destruct v; try (exfalso; by eapply Hd); simpl; try reflexivity.
    destruct (String.eqb_spec s ""); [subst; done|reflexivity].
Qed.


(** ** [sync_stream] on success *)

(** When the records pass succeeds, [sync_stream] succeeds with the pass's
    messages followed by exactly one flush of the final state. *)
Theorem sync_stream_success env sf ce w w1 l1 :
  sync_records env sf ce w = (inr tt, w1, l1) ->
  sync_stream env sf ce w = (inr tt, w1, l1 ++ [EvWriteState (w_state w1)]).
Proof.
  intros H. unfold sync_stream, try_except, bind. rewrite H. reflexivity.
Qed.

Lemma sync_stream_success_witness :
  let sf := {| pk_chunking := false |} in
  let ce := demo_entry (Some "SystemModstamp") in
  sync_stream e_c1 sf ce (mkWorld ∅ 0) =
    (inr tt, c1_run.1.2, c1_run.2 ++ [EvWriteState (w_state c1_run.1.2)]).
Proof.
  intros sf ce.
  assert (H : sync_records e_c1 sf ce (mkWorld ∅ 0) = (inr tt, c1_run.1.2, c1_run.2))
    by (vm_compute; reflexivity).
  exact (sync_stream_success e_c1 sf ce (mkWorld ∅ 0) c1_run.1.2 c1_run.2 H).
Defined.

(** ** The RecordMessages of a pass *)

Ltac crunch :=
  repeat match goal with
  | H : bind _ _ _ = (inr _, _, _) |- _ =>
      let H1 := fresh "H" in let H2 := fresh "H" in inv_bind H H1 H2
  | H : lift _ _ = (inr _, _, _) |- _ => inv_lift H
  | H : ret _ _ = (inr _, _, _) |- _ => inv_ret H
  | H : write_bookmark _ _ _ _ = _ |- _ =>
      unfold write_bookmark in H; injection H; clear H; intros; subst
  | H : write_state _ = _ |- _ =>
      unfold write_state in H; injection H; clear H; intros; subst
  | H : emit _ _ = _ |- _ => unfold emit in H; injection H; clear H; intros; subst
  | H : get_state _ = (inr _, _, _) |- _ => inv_get H
  end.

Lemma process_record_post env ce sv start raw w rec w' l :
  process_record env ce sv start raw w = (inr rec, w', l) ->
  post_processed env ce raw rec /\ w' = w /\
  l = [EvRecord (message_stream ce) rec sv start].
Proof.
  unfold process_record. intros H.
  inv_bind H Ht H1. inv_lift Ht. inv_bind H1 Hf H2. inv_lift Hf. inv_bind H2 He H3.
  unfold emit in He. injection He as <- <- <-. inv_ret H3. split; [eexists; eauto|auto].
Qed.

Lemma records_tagged_app s v t l1 l2 :
  records_tagged s v t l1 -> records_tagged s v t l2 -> records_tagged s v t (l1 ++ l2).
Proof. intros H1 H2 s' r v' t' Hin. apply elem_of_app in Hin as [Hin|Hin]; eauto. Qed.

Lemma records_tagged_nil s v t l : emitted_records l = [] -> records_tagged s v t l.
Proof.
  intros He s' r v' t' Hin. exfalso.
  assert (Hr : r ∈ emitted_records l).
  { unfold emitted_records. apply list_elem_of_omap. exists (EvRecord s' r v' t'). done. }
  rewrite He in Hr. by apply elem_of_nil in Hr.
Qed.

(** One completed loop step emits the post-processed record first, then at
    most bookmark writes and flushes. *)
Lemma sync_step_emits env sf ce sv start cb raw w cb' w' l :
  sync_records_step env sf ce sv start cb raw w = (inr cb', w', l) ->
  exists rec l', post_processed env ce raw rec /\
    l = EvRecord (message_stream ce) rec sv start :: l' /\ emitted_records l' = [].
Proof.
  unfold sync_records_step. intros H. inv_bind H Hp H1.
  apply process_record_post in Hp as (Hpost & -> & ->). inv_bind H1 Hr H2.
  apply replication_key_value_pure in Hr as [-> ->].
  exists a, l0. split; [done|]. split; [done|].
  destruct (pk_chunking sf); destruct a0 as [t|]; try (destruct (_ && _));
    try destruct (t <=? start); crunch; reflexivity.
Qed.

Lemma sync_loop_emits env sf ce sv start recs cb w cb' w' l :
  foldM (sync_records_step env sf ce sv start) cb recs w = (inr cb', w', l) ->
  Forall2 (post_processed env ce) recs (emitted_records l) /\
  records_tagged (message_stream ce) sv start l.
Proof.
  revert cb w l. induction recs as [|raw recs IH]; intros cb w l H.
  - inv_ret H. split; [constructor|by apply records_tagged_nil].
  - apply foldM_inr in H as (c1 & w1 & l1 & l2 & H1 & H2 & ->).
    apply sync_step_emits in H1 as (rec & l' & Hp & -> & Hl').
    apply IH in H2 as [Hf Ht]. rewrite emitted_records_app. simpl. rewrite Hl'. simpl.
    split; [by constructor|].
    intros s' r v' t' Hin. apply elem_of_cons in Hin as [Heq|Hin].
    + injection Heq; intros; subst; auto.
    + apply elem_of_app in Hin as [Hin|Hin]; [|by eapply Ht].
      by apply (records_tagged_nil (message_stream ce) sv start l' Hl') in Hin.
Qed.

Lemma sync_records_end_nonchunked_emits env sf ce sv cb w w' l :
  pk_chunking sf = false ->
  sync_records_end env sf ce sv cb w = (inr tt, w', l) -> emitted_records l = [].
Proof.
  intros Hpk H. unfold sync_records_end in H. rewrite Hpk in H.
  destruct (negb _); crunch; reflexivity.
Qed.

(** A completed non-chunked pass emits one RecordMessage per record the
    query engine yields, in the engine's order, each being the transformed
    and repaired record, and all of them tagged with the stream name (alias
    first), the pass's version and its start time. *)
Theorem sync_records_emits_each_record env sf ce w w' l :
  pk_chunking sf = false ->
  sync_records env sf ce w = (inr tt, w', l) ->
  exists recs sv start,
    query env ce (w_state w) = (recs, None) /\
    Forall2 (post_processed env ce) recs (emitted_records l) /\
    records_tagged (message_stream ce) sv start l.
Proof.
  intros Hpk H.
  apply sync_records_inr in H as (cb & sv & start & w1 & recs & cb' & w2 & l2 & l3 &
                                  _ & Hs & Hq & Hf & He & ->).
  apply sync_loop_emits in Hf as [Hf Ht].
  apply sync_records_end_nonchunked_emits in He; [|done].
  exists recs, sv, start. rewrite <- Hs. split; [done|].
  rewrite emitted_records_app, He, app_nil_r. split; [done|].
  apply records_tagged_app; [done|by apply records_tagged_nil].
Qed.

Lemma sync_records_emits_each_record_witness :
  exists recs sv start,
    query e_c1 (demo_entry (Some "SystemModstamp")) ∅ = (recs, None) /\
    Forall2 (post_processed e_c1 (demo_entry (Some "SystemModstamp"))) recs
      (emitted_records c1_run.2) /\
    records_tagged "Account" sv start c1_run.2.
Proof.
  assert (H : sync_records e_c1 {| pk_chunking := false |}
                (demo_entry (Some "SystemModstamp")) (mkWorld ∅ 0) =
              (inr tt, c1_run.1.2, c1_run.2)) by (vm_compute; reflexivity).
  exact (sync_records_emits_each_record e_c1 {| pk_chunking := false |}
           (demo_entry (Some "SystemModstamp")) (mkWorld ∅ 0) _ _ eq_refl H).
Defined.

(** ** A pass whose query fails, a record without its replication key *)

Lemma no_activation_trans (w1 w2 w3 : world) l1 l2 :
  no_activation l1 -> no_activation l2 -> no_activation (l1 ++ l2).
Proof. intros H1 H2 s v Hin. apply elem_of_app in Hin as [Hin|Hin]; [eapply H1|eapply H2]; eauto. Qed.

Lemma na_refl (w : world) : na_run w w [].
Proof. intros s v Hin. by apply elem_of_nil in Hin. Qed.

Lemma na_trans w1 w2 w3 l1 l2 : na_run w1 w2 l1 -> na_run w2 w3 l2 -> na_run w1 w3 (l1 ++ l2).
Proof. apply no_activation_trans; auto. Qed.

Ltac na_bind := apply (runs_in_bind _ na_trans).
Ltac na_leaf :=
  first [ apply (runs_in_ret _ na_refl)
        | apply (runs_in_lift _ na_refl)
        | apply (runs_in_throw _ na_refl)
        | apply (runs_in_get_state _ na_refl)
        | (intros ? ? ? ? Hx;
           unfold read_clock, emit, write_bookmark, write_state in Hx;
           injection Hx; intros; subst; intros ? ? Hin;
           repeat (apply elem_of_cons in Hin as [Hin|Hin]; [discriminate|]);
           by apply elem_of_nil in Hin) ].

Lemma sync_records_init_na env ce : runs_in na_run (sync_records_init env ce).
Proof.
  unfold sync_records_init, get_stream_version, read_clock.
  na_bind; [na_leaf|intros st]. na_bind; [na_leaf|intros cb].
  na_bind; [|intros sv; na_bind; [na_leaf|intros; na_leaf]].
  na_bind; [na_leaf|intros st'].
  na_bind; [destruct (truthy _); [na_leaf|na_bind; [na_leaf|intros; na_leaf]]|intros v].
  destruct (rk_truthy _); [na_leaf|na_bind; [na_leaf|intros; na_leaf]].
Qed.

Lemma sync_step_na env sf ce sv start cb raw :
  runs_in na_run (sync_records_step env sf ce sv start cb raw).
Proof.
  unfold sync_records_step, process_record, replication_key_value.
  na_bind.
  { na_bind; [na_leaf|intros r0]. na_bind; [na_leaf|intros r1].
    na_bind; [na_leaf|intros; na_leaf]. }
  intros rec. na_bind.
  { destruct (replication_key ce); [destruct (rk_truthy _)|]; try na_leaf.
    na_bind; [na_leaf|intros v]. na_bind; [na_leaf|intros t]. na_leaf. }
  intros rkv. destruct (pk_chunking sf); destruct rkv as [t|]; try na_leaf.
  - destruct (_ && _); [|na_leaf].
    na_bind; [na_leaf|intros v]. na_bind; [na_leaf|intros cb'].
    na_bind; [na_leaf|intros _]. na_bind; [na_leaf|intros _]. na_leaf.
  - destruct (t <=? start); [|na_leaf].
    na_bind; [na_leaf|intros v]. na_bind; [na_leaf|intros _].
    na_bind; [na_leaf|intros _]. na_leaf.
Qed.

(** When the query engine fails with [e] after yielding [recs], the pass
    raises and never reaches its end: no activate-version message is
    emitted. When every yielded record is processed, the records are
    handled exactly as in a normal pass (same log, same state) and the
    error raised is [e] itself. *)
Theorem sync_records_query_failure env sf ce w recs e r w' l :
  query env ce (w_state w) = (recs, Some e) ->
  sync_records env sf ce w = (r, w', l) ->
  (exists e', r = inl e') /\ no_activation l /\
  (forall cb sv start w1 cb' w2 l2,
     sync_records_init env ce w = (inr (cb, sv, start), w1, []) ->
     foldM (sync_records_step env sf ce sv start) cb recs w1 = (inr cb', w2, l2) ->
     r = inl e /\ w' = w2 /\ l = l2).
Proof.
  intros Hq H. unfold sync_records in H.
  apply bind_run in H as [(e0 & -> & Hi) | ([[cb0 sv0] start0] & w1 & l1 & l2 & Hi & H & ->)].
  { split; [eauto|]. split; [eapply sync_records_init_na; eauto|].
    intros ??????? Hi'. rewrite Hi' in Hi. discriminate. }
  pose proof Hi as Hi'. apply sync_records_init_inr in Hi' as [Hs ->].
  apply bind_run in H as [(e0 & -> & Hg) | (st & w3 & l3 & l4 & Hg & H & ->)];
    [unfold get_state in Hg; discriminate|].
  inv_get Hg. rewrite Hs, Hq in H. cbv beta iota in H.
  apply bind_run in H as [(e1 & -> & Hf) | (cb' & w4 & l5 & l6 & Hf & H & ->)].
  - split; [eauto|]. split.
    + eapply (runs_in_foldM _ na_refl na_trans); [intros; apply sync_step_na|exact Hf].
    + intros cb sv start w1' cb' w2 l2 Hi' Hf'. rewrite Hi' in Hi.
      injection Hi; intros; subst. rewrite Hf' in Hf. discriminate.
  - unfold throw in H. injection H; intros; subst.
    split; [eauto|]. split.
    + rewrite app_nil_r.
      eapply (runs_in_foldM _ na_refl na_trans); [intros; apply sync_step_na|exact Hf].
    + intros cb sv start w1' cb'' w2 l2 Hi' Hf'. rewrite Hi' in Hi.
      injection Hi; intros; subst. rewrite Hf' in Hf. injection Hf; intros; subst.
      rewrite app_nil_r. done.
Qed.

Lemma sync_records_query_failure_witness :
  let e := e_failing quota_error in
  let sf := {| pk_chunking := false |} in
  let ce := demo_entry None in
  let p := run (sync_records e sf ce) ∅ in
  query e ce ∅ = ([demo_rec "a" 300], Some quota_error) /\
  (exists e', p.1.1 = inl e') /\ no_activation p.2 /\
  (forall cb sv start w1 cb' w2 l2,
     sync_records_init e ce (mkWorld ∅ 0) = (inr (cb, sv, start), w1, []) ->
     foldM (sync_records_step e sf ce sv start) cb [demo_rec "a" 300] w1 =
       (inr cb', w2, l2) ->
     p.1.1 = inl quota_error /\ p.1.2 = w2 /\ p.2 = l2).
Proof.
  intros e sf ce p. split; [reflexivity|].
  exact (sync_records_query_failure e sf ce (mkWorld ∅ 0) [demo_rec "a" 300]
           quota_error p.1.1 p.1.2 p.2 eq_refl eq_refl).
Defined.

(** A record that lacks its replication-key field (after post-processing)
    is still emitted, and then the step raises the KeyError of
    [rec[replication_key]], without touching the state; in a records pass
    (either mode) and in a resumed batch alike. *)
Theorem record_missing_replication_key env sf ce k sv start cb raw rec e w :
  replication_key ce = Some k -> k <> "" ->
  post_processed env ce raw rec -> py_getitem rec k = inl e ->
  sync_records_step env sf ce sv start cb raw w =
    (inl e, w, [EvRecord (message_stream ce) rec sv start]) /\
  resume_record_step env ce sv start cb raw w =
    (inl e, w, [EvRecord (message_stream ce) rec sv start]).
Proof.
  intros Hk Hne (r0 & Ht & Hf) He.
  assert (Htr : rk_truthy (Some k) = true).
  { simpl. destruct (String.eqb_spec k ""); done. }
  unfold sync_records_step, resume_record_step, process_record, replication_key_value.
  rewrite Hk, Htr. cbv [bind lift ret throw emit]. rewrite Ht, Hf, He. done.
Qed.

Lemma record_missing_replication_key_witness :
  let ce := demo_entry (Some "SystemModstamp") in
  let rec := VDict [("Id", VStr "a")] in
  sync_records_step e_c1 {| pk_chunking := false |} ce (VInt 5000) 6000 100 rec
      (mkWorld ∅ 0) =
    (inl (Exc KKeyError "SystemModstamp" None None), mkWorld ∅ 0,
     [EvRecord "Account" rec (VInt 5000) 6000]) /\
  resume_record_step e_c1 ce (VInt 5000) 6000 100 rec (mkWorld ∅ 0) =
    (inl (Exc KKeyError "SystemModstamp" None None), mkWorld ∅ 0,
     [EvRecord "Account" rec (VInt 5000) 6000]).
Proof.
  intros ce rec.
  refine (record_missing_replication_key e_c1 {| pk_chunking := false |} ce
            "SystemModstamp" (VInt 5000) 6000 100 rec rec _ (mkWorld ∅ 0)
            eq_refl ltac:(discriminate) _ eq_refl).
  exists rec. split; reflexivity.
Defined.

(** ** What a non-chunked keyed pass writes *)

Lemma cursor_log_app sid k l1 l2 :
  cursor_log sid k l1 -> cursor_log sid k l2 -> cursor_log sid k (l1 ++ l2).
Proof.
  induction 1; simpl; intros; [done| apply cursor_log_record | apply cursor_log_write]; auto.
Qed.

Lemma cursor_run_refl sid k w : cursor_run sid k w w [].
Proof. split; [apply frame_refl | constructor]. Qed.

Lemma cursor_run_trans sid k w1 w2 w3 l1 l2 :
  cursor_run sid k w1 w2 l1 -> cursor_run sid k w2 w3 l2 -> cursor_run sid k w1 w3 (l1 ++ l2).
Proof.
  intros [F1 C1] [F2 C2]. split; [eapply frame_trans; eauto | by apply cursor_log_app].
Qed.

Ltac cr_bind := apply (runs_in_bind _ (cursor_run_trans _ _)).
Ltac cr_leaf :=
  first [ apply (runs_in_ret _ (cursor_run_refl _ _))
        | apply (runs_in_lift _ (cursor_run_refl _ _))
        | apply (runs_in_throw _ (cursor_run_refl _ _))
        | apply (runs_in_get_state _ (cursor_run_refl _ _))
        | (intros ? ? ? ? Hx; unfold read_clock in Hx; injection Hx; intros; subst;
           split; [intros ???; done | constructor]) ].

Lemma get_stream_version_cursor_run env ce sid k :
  runs_in (cursor_run sid k) (get_stream_version env ce).
Proof.
  unfold get_stream_version. cr_bind; [cr_leaf|intros st].
  cr_bind.
  - destruct (truthy _); [cr_leaf|]. cr_bind; [cr_leaf|intros; cr_leaf].
  - intros v. destruct (rk_truthy _); [cr_leaf|]. cr_bind; [cr_leaf|intros; cr_leaf].
Qed.

Lemma sync_step_cursor_run env sf ce k sv start cb raw :
  pk_chunking sf = false -> replication_key ce = Some k ->
  runs_in (cursor_run (tap_stream_id ce) k) (sync_records_step env sf ce sv start cb raw).
Proof.
  intros Hpk Hk. unfold sync_records_step. rewrite Hpk, Hk. simpl rk_key.
  cr_bind.
  { unfold process_record. cr_bind; [cr_leaf|intros r0]. cr_bind; [cr_leaf|intros r1].
    cr_bind; [|intros; cr_leaf].
    intros w r w' l H. unfold emit in H. injection H; intros; subst.
    split; [apply frame_refl | repeat constructor]. }
  intros rec. cr_bind.
  { unfold replication_key_value. rewrite Hk. destruct (rk_truthy _); [|cr_leaf].
    cr_bind; [cr_leaf|intros v]. cr_bind; [cr_leaf|intros t]. cr_leaf. }
  intros rkv. destruct rkv as [t|]; [|cr_leaf]. destruct (t <=? start); [|cr_leaf].
  cr_bind; [cr_leaf|intros v].
  intros w r w' l H. unfold bind, write_bookmark, write_state, ret in H.
  injection H; intros; subst. simpl. split.
  - apply frame_write. by left.
  - constructor; [apply get_bookmark_write|constructor].
Qed.

(** In a non-chunked pass over a stream keyed by [k], whatever its outcome
    (completed, or stopped by any exception), the only bookmark that
    changes is the stream's cursor field [k]; the log holds RecordMessages
    and writes of [k], each immediately followed by a flush of a state
    holding the written value. *)
Theorem nonchunked_pass_writes_only_cursor env sf ce k :
  pk_chunking sf = false -> replication_key ce = Some k -> k <> "" ->
  forall w r w' l, sync_records env sf ce w = (r, w', l) ->
    frame (tap_stream_id ce) [k] w w' /\ cursor_log (tap_stream_id ce) k l.
Proof.
  intros Hpk Hk Hne. assert (Htr : rk_truthy (replication_key ce) = true).
  { rewrite Hk. simpl. destruct (String.eqb_spec k ""); done. }
  change (runs_in (cursor_run (tap_stream_id ce) k) (sync_records env sf ce)).
  unfold sync_records. cr_bind.
  { unfold sync_records_init. cr_bind; [cr_leaf|intros st]. cr_bind; [cr_leaf|intros cb].
    cr_bind; [apply get_stream_version_cursor_run|intros sv].
    cr_bind; [cr_leaf|intros; cr_leaf]. }
  intros [[cb sv] start]. cr_bind; [cr_leaf|intros st].
  destruct (query env ce st) as [recs qerr].
  cr_bind.
  { apply (runs_in_foldM _ (cursor_run_refl _ _) (cursor_run_trans _ _)).
    intros; by apply sync_step_cursor_run. }
  intros cb'. destruct qerr as [e|]; [cr_leaf|].
  unfold sync_records_end. rewrite Htr, Hpk.
  cr_bind; [cr_leaf|intros; cr_leaf].
Qed.

Lemma nonchunked_pass_writes_only_cursor_witness :
  frame "Account" ["SystemModstamp"] (mkWorld ∅ 0) c1_run.1.2 /\
  cursor_log "Account" "SystemModstamp" c1_run.2.
Proof.
  exact (nonchunked_pass_writes_only_cursor e_c1 {| pk_chunking := false |}
           (demo_entry (Some "SystemModstamp")) "SystemModstamp" eq_refl eq_refl
           ltac:(discriminate) (mkWorld ∅ 0) _ _ _ eq_refl).
Defined.

(** ** What a resumed job writes *)

Lemma resume_frame_refl sid w : resume_frame sid w w [].
Proof. apply frame_refl. Qed.

Lemma resume_frame_trans sid w1 w2 w3 l1 l2 :
  resume_frame sid w1 w2 l1 -> resume_frame sid w2 w3 l2 -> resume_frame sid w1 w3 (l1 ++ l2).
Proof. apply frame_trans. Qed.

Ltac rf_bind := apply (runs_in_bind _ (resume_frame_trans _)).
Ltac rf_leaf :=
  first [ apply (runs_in_ret _ (resume_frame_refl _))
        | apply (runs_in_lift _ (resume_frame_refl _))
        | apply (runs_in_throw _ (resume_frame_refl _))
        | apply (runs_in_get_state _ (resume_frame_refl _))
        | (intros ? ? ? ? Hx; unfold read_clock in Hx;
           injection Hx; intros; subst; intros ? ? ?; reflexivity)
        | (intros ? ? ? ? Hx; unfold emit in Hx;
           injection Hx; intros; subst; apply frame_refl)
        | (intros ? ? ? ? Hx; unfold write_state in Hx;
           injection Hx; intros; subst; apply frame_refl) ].

Lemma resume_record_step_frame env ce sv start cur raw :
  runs_in (resume_frame (tap_stream_id ce)) (resume_record_step env ce sv start cur raw).
Proof.
  unfold resume_record_step, process_record, replication_key_value.
  rf_bind.
  { rf_bind; [rf_leaf|intros r0]. rf_bind; [rf_leaf|intros r1].
    rf_bind; [rf_leaf|intros; rf_leaf]. }
  intros rec. rf_bind.
  { destruct (replication_key ce); [destruct (rk_truthy _)|]; try rf_leaf.
    rf_bind; [rf_leaf|intros v]. rf_bind; [rf_leaf|intros t]. rf_leaf. }
  intros rkv. destruct rkv as [t|]; [|rf_leaf]. destruct (_ && _); [|rf_leaf].
  rf_bind; [rf_leaf|intros; rf_leaf].
Qed.

Lemma resume_batch_frame env ce job sv start cur b :
  runs_in (resume_frame (tap_stream_id ce)) (resume_batch env ce job sv start cur b).
Proof.
  unfold resume_batch. destruct (get_batch_results env job b ce) as [recs err].
  rf_bind.
  { apply (runs_in_foldM _ (resume_frame_refl _) (resume_frame_trans _)).
    intros; apply resume_record_step_frame. }
  intros cur'. destruct err as [e|]; [rf_leaf|].
  rf_bind.
  { intros w r w' l H. unfold write_bookmark in H. injection H; intros; subst.
    apply frame_write. by left. }
  intros _. rf_bind.
  { unfold remove_batch_id. rf_bind; [rf_leaf|intros st]. rf_bind; [rf_leaf|intros ids].
    destruct (remove_first b ids) as [ids'|]; [|rf_leaf].
    intros w r w' l0 H. injection H; intros; subst.
    apply frame_write. right. by left. }
  intros _. rf_bind; [rf_leaf|intros; rf_leaf].
Qed.

(** A resumed job, whatever its outcome (completed, or stopped by any
    exception), changes no bookmark except JobHighestBookmarkSeen and
    BatchIDs of its own stream: it never writes the cursor field, the
    version, or another stream's bookmarks. *)
Theorem resume_writes_only_watermark_and_batches env ce job w r w' l :
  resume_syncing_bulk_query env ce job w = (r, w', l) ->
  frame (tap_stream_id ce) ["JobHighestBookmarkSeen"; "BatchIDs"] w w'.
Proof.
  revert w r w' l.
  change (runs_in (resume_frame (tap_stream_id ce)) (resume_syncing_bulk_query env ce job)).
  unfold resume_syncing_bulk_query, get_stream_version.
  rf_bind; [rf_leaf|intros st]. rf_bind; [rf_leaf|intros cur].
  rf_bind; [rf_leaf|intros start]. rf_bind.
  { rf_bind; [rf_leaf|intros st'].
    rf_bind; [destruct (truthy _); [rf_leaf|rf_bind; [rf_leaf|intros; rf_leaf]]|intros v].
    destruct (rk_truthy _); [rf_leaf|rf_bind; [rf_leaf|intros; rf_leaf]]. }
  intros sv. rf_bind; [rf_leaf|intros ids].
  rf_bind; [|intros; rf_leaf].
  apply (runs_in_foldM _ (resume_frame_refl _) (resume_frame_trans _)).
  intros; apply resume_batch_frame.
Qed.

Lemma resume_writes_only_watermark_and_batches_witness :
  frame "Account" ["JobHighestBookmarkSeen"; "BatchIDs"] (mkWorld c2_state 0)
    (run (resume_syncing_bulk_query e_c2 (demo_entry (Some "SystemModstamp")) "j")
         c2_state).1.2.
Proof.
  exact (resume_writes_only_watermark_and_batches e_c2 (demo_entry (Some "SystemModstamp"))
           "j" (mkWorld c2_state 0) _ _ _ eq_refl).
Defined.

(** ** The watermark of a resumed job *)

Lemma watermarks_app sid l1 l2 :
  watermarks sid (l1 ++ l2) = watermarks sid l1 ++ watermarks sid l2.
Proof. induction l1 as [|[] l1 IH]; simpl; rewrite ?IH; try done.
  destruct (_ && _); simpl; rewrite ?IH; done. Qed.

Lemma watermarks_records sid l : Forall is_record_event l -> watermarks sid l = [].
Proof. induction 1 as [|ev l (s & r & v & t & ->) _ IH]; simpl; done. Qed.

Lemma resume_record_step_mono env ce sv start cur raw w cur' w' l :
  resume_record_step env ce sv start cur raw w = (inr cur', w', l) ->
  cur <= cur' /\ cur' <= Z.max cur start.
Proof.
  unfold resume_record_step. intros H. inv_bind H Hp H1.
  apply process_record_inr in Hp as [-> ->]. inv_bind H1 Hr H2.
  unfold replication_key_value in Hr.
  destruct (replication_key ce) as [k|]; [destruct (rk_truthy _)|]; simpl in H2;
    [|inv_ret Hr; inv_ret H2; lia..].
  inv_bind Hr Hv H3. inv_lift Hv. inv_bind H3 Ht H4. inv_lift Ht. inv_ret H4.
  match goal with Ht : strptime_with_tz _ _ = inr ?t |- _ =>
    destruct (Z.leb_spec t start); destruct (Z.ltb_spec cur t); simpl in H2;
    try (inv_ret H2; lia);
    inv_bind H2 Hv' H5; inv_lift Hv'; inv_lift H5;
    assert (cur' = t) by congruence; lia
  end.
Qed.

Lemma resume_loop_mono env ce sv start recs cur w cur' w' l :
  foldM (resume_record_step env ce sv start) cur recs w = (inr cur', w', l) ->
  cur <= cur' /\ cur' <= Z.max cur start.
Proof.
  revert cur w l. induction recs as [|raw recs IH]; intros cur w l H.
  - inv_ret H. lia.
  - apply foldM_inr in H as (c1 & w1 & l1 & l2 & H1 & H2 & ->).
    apply resume_record_step_mono in H1. apply IH in H2. lia.
Qed.

Lemma resume_batch_mono env ce job sv start cur b w cur' w' l :
  resume_batch env ce job sv start cur b w = (inr cur', w', l) ->
  cur <= cur' /\ cur' <= Z.max cur start.
Proof.
  unfold resume_batch. destruct (get_batch_results env job b ce) as [recs err].
  intros H. inv_bind H Hf H1. apply resume_loop_mono in Hf.
  destruct err as [e|]; [discriminate|].
  inv_bind H1 Hw H2. inv_bind H2 Hr H3. inv_bind H3 Hs H4. inv_ret H4. lia.
Qed.

Lemma resume_batches_watermarks env ce job sv start ids cur w cur' w' l :
  get_bookmark (w_state w) (tap_stream_id ce) "BatchIDs" = VList (map VStr ids) ->
  foldM (resume_batch env ce job sv start) cur ids w = (inr cur', w', l) ->
  exists curs, watermarks (tap_stream_id ce) l = map (strftime env) curs /\
    length curs = length ids /\ Sorted Z.le (cur :: curs) /\
    Forall (fun c => c <= Z.max cur start) curs.
Proof.
  revert cur w l. induction ids as [|b ids IH]; intros cur w l Hb H.
  - inv_ret H. exists []. repeat constructor.
  - apply foldM_inr in H as (c1 & w1 & l1 & l2 & H1 & H2 & ->).
    pose proof H1 as Hm. apply resume_batch_mono in Hm.
    apply resume_batch_inr with (rest := ids) in H1
      as (rs & Hrs & -> & _ & Hb1 & _ & _); [|done].
    apply IH in H2 as (curs & Hw & Hlen & Hs & Hf); [|done].
    exists (c1 :: curs). rewrite !watermarks_app, Hw, watermarks_records by done.
    simpl. rewrite !String.eqb_refl. simpl. split; [done|]. split; [simpl; lia|].
    split.
    + constructor; [done|constructor; lia].
    + constructor; [lia|]. eapply Forall_impl; [exact Hf|]. simpl. intros c Hc. lia.
Qed.

(** The watermarks a completed resumed job writes, one per batch, start
    from the stored JobHighestBookmarkSeen (else the start date), never
    decrease from batch to batch, and never pass the later of that starting
    value and the time the job resumed. *)
Theorem resume_watermark_monotone env ce job ids w w' l :
  get_bookmark (w_state w) (tap_stream_id ce) "BatchIDs" = VList (map VStr ids) ->
  resume_syncing_bulk_query env ce job w = (inr tt, w', l) ->
  exists c0 curs,
    strptime_with_tz env
      (let j := get_bookmark (w_state w) (tap_stream_id ce) "JobHighestBookmarkSeen" in
       if truthy j then j else VStr (get_start_date env (w_state w) ce)) = inr c0 /\
    watermarks (tap_stream_id ce) l = map (strftime env) curs /\
    length curs = length ids /\
    Sorted Z.le (c0 :: curs) /\
    Forall (fun c => c <= Z.max c0 (clock_ms env (w_ticks w))) curs.
Proof.
  intros Hb H. unfold resume_syncing_bulk_query in H. inv_bind H Hg H1. inv_get Hg.
  inv_bind H1 Hp H2. inv_lift Hp. inv_bind H2 Hc H3. inv_clock Hc.
  inv_bind H3 Hv H4. apply get_stream_version_inr in Hv as [Hs ->].
  inv_bind H4 Hl H5. inv_lift Hl.
  match goal with Hi : batch_id_list _ = inr _ |- _ =>
    rewrite Hb, batch_id_list_strs in Hi; injection Hi; intros; subst end.
  inv_bind H5 Hf H6. inv_ret H6. rewrite app_nil_r.
  apply resume_batches_watermarks in Hf as (curs & Hw & Hlen & Hso & Hfa);
    [|rewrite Hs; done].
  eexists _, curs. split; [eassumption|]. done.
Qed.

Lemma resume_watermark_monotone_witness :
  exists c0 curs,
    strptime_with_tz e_c2
      (let j := get_bookmark c2_state "Account" "JobHighestBookmarkSeen" in
       if truthy j then j else VStr (get_start_date e_c2 c2_state
                                       (demo_entry (Some "SystemModstamp")))) = inr c0 /\
    watermarks "Account"
      (run (resume_syncing_bulk_query e_c2 (demo_entry (Some "SystemModstamp")) "j")
           c2_state).2 = map (strftime e_c2) curs /\
    length curs = length ["b1"; "b2"] /\
    Sorted Z.le (c0 :: curs) /\
    Forall (fun c => c <= Z.max c0 (clock_ms e_c2 0)) curs.
Proof.
  assert (H : resume_syncing_bulk_query e_c2 (demo_entry (Some "SystemModstamp")) "j"
                (mkWorld c2_state 0) =
              (inr tt,
               (run (resume_syncing_bulk_query e_c2 (demo_entry (Some "SystemModstamp")) "j")
                    c2_state).1.2,
               (run (resume_syncing_bulk_query e_c2 (demo_entry (Some "SystemModstamp")) "j")
                    c2_state).2)) by (vm_compute; reflexivity).
  exact (resume_watermark_monotone e_c2 (demo_entry (Some "SystemModstamp")) "j"
           ["b1"; "b2"] (mkWorld c2_state 0) _ _ eq_refl H).
Defined.




Lemma resume_step_emits env ce sv start cur raw w cur' w' l :
  resume_record_step env ce sv start cur raw w = (inr cur', w', l) ->
  exists rec, post_processed env ce raw rec /\
    l = [EvRecord (message_stream ce) rec sv start].
Proof.
  unfold resume_record_step. intros H. inv_bind H Hp H1.
  apply process_record_post in Hp as (Hpost & -> & ->). inv_bind H1 Hr H2.
  apply replication_key_value_pure in Hr as [-> ->].
  destruct a0 as [t|]; [destruct (_ && _)|]; [|inv_ret H2; eauto..].
  inv_bind H2 H3 H4. inv_lift H3. inv_lift H4. eauto.
Qed.

Lemma resume_loop_emits env ce sv start recs cur w cur' w' l :
  foldM (resume_record_step env ce sv start) cur recs w = (inr cur', w', l) ->
  Forall2 (post_processed env ce) recs (emitted_records l) /\
  records_tagged (message_stream ce) sv start l.
Proof.
  revert cur w l. induction recs as [|raw recs IH]; intros cur w l H.
  - inv_ret H. split; [constructor|by apply records_tagged_nil].
  - apply foldM_inr in H as (c1 & w1 & l1 & l2 & H1 & H2 & ->).
    apply resume_step_emits in H1 as (rec & Hp & ->).
    apply IH in H2 as [Hf Ht]. simpl. split; [by constructor|].
    intros s' r v' t' Hin. apply elem_of_cons in Hin as [Heq|Hin].
    + injection Heq; intros; subst; auto.
    + by eapply Ht.
Qed.

Lemma resume_batch_emits env ce job sv start cur b w cur' w' l :
  resume_batch env ce job sv start cur b w = (inr cur', w', l) ->
  (get_batch_results env job b ce).2 = None /\
  Forall2 (post_processed env ce) (get_batch_results env job b ce).1 (emitted_records l) /\
  records_tagged (message_stream ce) sv start l.
Proof.
  unfold resume_batch. destruct (get_batch_results env job b ce) as [recs err].
  intros H. inv_bind H Hf H1. apply resume_loop_emits in Hf as [Hf Ht].
  destruct err as [e|]; [discriminate|]. simpl.
  inv_bind H1 Hw H2. inv_bind H2 Hr H3. inv_bind H3 Hs H4. inv_ret H4.
  unfold write_bookmark in Hw. injection Hw; intros; subst.
  unfold write_state in Hs. injection Hs; intros; subst.
  unfold remove_batch_id in Hr. inv_bind Hr Hg Hr1. inv_get Hg. inv_bind Hr1 Hl Hr2.
  inv_lift Hl. destruct (remove_first b _); [|discriminate].
  injection Hr2; intros; subst.
  rewrite ?emitted_records_app. simpl. rewrite ?app_nil_r.
  split; [done|]. split; [done|].
  apply records_tagged_app; [done|]. by apply records_tagged_nil.
Qed.

Lemma resume_batches_emits env ce job sv start ids cur w cur' w' l :
  foldM (resume_batch env ce job sv start) cur ids w = (inr cur', w', l) ->
  Forall (fun b => (get_batch_results env job b ce).2 = None) ids /\
  Forall2 (post_processed env ce)
    (concat (map (fun b => (get_batch_results env job b ce).1) ids)) (emitted_records l) /\
  records_tagged (message_stream ce) sv start l.
Proof.
  revert cur w l. induction ids as [|b ids IH]; intros cur w l H.
  - inv_ret H. split; [constructor|]. split; [constructor|by apply records_tagged_nil].
  - apply foldM_inr in H as (c1 & w1 & l1 & l2 & H1 & H2 & ->).
    apply resume_batch_emits in H1 as (Hn & Hf & Ht).
    apply IH in H2 as (Hn' & Hf' & Ht').
    split; [by constructor|]. rewrite emitted_records_app. simpl.
    split; [by apply Forall2_app|]. by apply records_tagged_app.
Qed.

(** A completed resumed job fetched every stored batch without error, and
    what it emitted is exactly the post-processed results of the stored
    batches, batch after batch in the stored BatchIDs order, all tagged with
    the stream's name, one version and the time the job resumed. *)
Theorem resume_emits_batches_in_order env ce job ids w w' l :
  get_bookmark (w_state w) (tap_stream_id ce) "BatchIDs" = VList (map VStr ids) ->
  resume_syncing_bulk_query env ce job w = (inr tt, w', l) ->
  Forall (fun b => (get_batch_results env job b ce).2 = None) ids /\
  Forall2 (post_processed env ce)
    (concat (map (fun b => (get_batch_results env job b ce).1) ids)) (emitted_records l) /\
  exists sv, records_tagged (message_stream ce) sv (clock_ms env (w_ticks w)) l.
Proof.
  intros Hb H. unfold resume_syncing_bulk_query in H. inv_bind H Hg H1. inv_get Hg.
  inv_bind H1 Hp H2. inv_lift Hp. inv_bind H2 Hc H3. inv_clock Hc.
  inv_bind H3 Hv H4. apply get_stream_version_inr in Hv as [Hs ->].
  inv_bind H4 Hl H5. inv_lift Hl.
  match goal with Hi : batch_id_list _ = inr _ |- _ =>
    rewrite Hb, batch_id_list_strs in Hi; injection Hi; intros; subst end.
  inv_bind H5 Hf H6. inv_ret H6. rewrite !app_nil_r.
  apply resume_batches_emits in Hf as (Hn & Hf & Ht).
  split; [done|]. split; [done|]. eexists. exact Ht.
Qed.

Lemma resume_emits_batches_in_order_witness :
  let ce := demo_entry (Some "SystemModstamp") in
  let lg := (run (resume_syncing_bulk_query e_c2 ce "j") c2_state).2 in
  Forall (fun b => (get_batch_results e_c2 "j" b ce).2 = None) ["b1"; "b2"] /\
  Forall2 (post_processed e_c2 ce)
    (concat (map (fun b => (get_batch_results e_c2 "j" b ce).1) ["b1"; "b2"]))
    (emitted_records lg) /\
  exists sv, records_tagged (message_stream ce) sv (clock_ms e_c2 0) lg.
Proof.
  intros ce lg.
  assert (H : resume_syncing_bulk_query e_c2 ce "j" (mkWorld c2_state 0) =
              (inr tt, (run (resume_syncing_bulk_query e_c2 ce "j") c2_state).1.2, lg))
    by (vm_compute; reflexivity).
  exact (resume_emits_batches_in_order e_c2 ce "j" ["b1"; "b2"] (mkWorld c2_state 0)
           _ _ eq_refl H).
Defined.
